(** * The ripple controller of react-material-3-pure ([useRipple])

    A shallow embedding of the [useRipple] hook (the [USE_RIPPLE_TS] template,
    src/unnamed/part_003) together with the few host facilities it calls:
    the clock, [setTimeout], [Element.animate] and [Animation.cancel].

    - JavaScript numbers that carry geometry are IEEE binary64 values
      ([PrimFloat.float]); the [Math] builtins are written out in [JsMath],
      and [v ** 2] is taken as the correctly rounded [v * v].
    - The strings built from numbers ([String(v)], [`${v}px`]) are kept
      symbolic ([Text]).
    - Time is counted in whole milliseconds ([Z]), the unit of the delay of
      [setTimeout]. There are two clocks: the one [setTimeout] runs on
      ([now]), and the host's animation timeline, from which each
      [Animation] takes the [currentTime] it reports. The hook only compares
      that value with 225 and hands 225 less that value to [setTimeout],
      which drops the fraction of a millisecond, so a reading stands for the
      reported value taken up to the next whole millisecond.
    - The two [await]s of the hook are suspension points: the rest of the
      function is a [Continuation] stored in the host's timer list and run
      by [resume] when the host fires the timer, at its due time or later,
      in any order among the timers that are due.
    - [Animation] objects are shared between [growAnimationRef] and the
      continuation that captured them, so they live in a store ([animations])
      and are referred to by handle. An animation reports 0 as its
      [currentTime] when it is created and, from then on, what the host's
      timeline last made of it ([Timeline]); that value moves with the
      frames the host renders and is not tied to the clock of [setTimeout],
      so it can be behind the time since the creation or ahead of it. A
      cancelled animation reports none.
    - [disabled] is an argument of the hook, fixed in each render; every
      handler call carries the value of the render it comes from. *)

From Stdlib Require Import ZArith List Bool String Floats Uint63 Lia.
Import ListNotations.
Open Scope Z_scope.

(** ** JavaScript [Math] builtins on binary64 *)

Module JsMath.

(** [Math.max(a, b)]: NaN if either argument is NaN, and [+0] is larger
    than [-0]. *)
Definition max (a b : float) : float :=
  if (is_nan a || is_nan b)%bool then nan
  else if (a <? b)%float then b
  else if (b <? a)%float then a
  else if get_sign a then b else a.

(** [Math.floor(v)]: NaN, the infinities and the zeros are returned as they
    are, and so is every value whose exponent is not negative (an integer
    already). Otherwise the mantissa is shifted; the quotient is below
    2^53 and converts exactly. *)
Definition floor (v : float) : float :=
  match Prim2SF v with
  | S754_finite s m e =>
      if (0 <=? e)%Z then v
      else
        let q := Z.shiftr (Zpos m) (- e) in
        let exact := (Z.shiftl q (- e) =? Zpos m)%Z in
        if s then (- of_uint63 (of_Z (if exact then q else q + 1)))%float
        else of_uint63 (of_Z q)
  | _ => v
  end.

Definition sqrt (v : float) : float := PrimFloat.sqrt v.

(** [v ** 2], taken as the correctly rounded square. *)
Definition square (v : float) : float := (v * v)%float.

End JsMath.

(** ** Constants (part_003, lines 5-12) *)

Definition PRESS_GROW_MS : Z := 450.
Definition MINIMUM_PRESS_MS : Z := 225.
(** 0.2, the binary64 value nearest to it *)
Definition INITIAL_ORIGIN_SCALE : float := 0x1.999999999999ap-3%float.
Definition PADDING : float := 10%float.
Definition SOFT_EDGE_MINIMUM_SIZE : float := 75%float.
(** 0.35, the binary64 value nearest to it *)
Definition SOFT_EDGE_CONTAINER_RATIO : float := 0x1.6666666666666p-2%float.
Definition TOUCH_DELAY_MS : Z := 150.

(** ** Data *)

(** [State] (lines 14-19) *)
Inductive StateType := INACTIVE | TOUCH_DELAY | HOLDING | WAITING_FOR_CLICK.

Definition StateType_eqb (a b : StateType) : bool :=
  match a, b with
  | INACTIVE, INACTIVE | TOUCH_DELAY, TOUCH_DELAY
  | HOLDING, HOLDING | WAITING_FOR_CLICK, WAITING_FOR_CLICK => true
  | _, _ => false
  end.

(** The fields of [React.PointerEvent] the hook reads. *)
Record PointerEvent := {
  type : string;
  pointerId : Z;
  isPrimary : bool;
  pointerType : string;
  buttons : Z;
  pageX : float;
  pageY : float
}.

(** What [element.getBoundingClientRect()] returns. *)
Record DOMRect := {
  rect_left : float;
  rect_top : float;
  width : float;
  height : float
}.

Record Point := { pt_x : float; pt_y : float }.

(** The strings the hook builds from numbers, kept symbolic: [''],
    [String(v)] and [`${v}px`]. *)
Inductive Text :=
| EmptyText
| NumberText (v : float)
| PxText (v : float).

(** The keyframes handed to [surface.animate] (lines 119-125): the size used
    for [height] and [width], the two translations and the final scale;
    [top] and [left] are the constant [[0, 0]]. *)
Record Keyframes := {
  kf_size : Text;
  kf_translateStart : Point;
  kf_translateEnd : Point;
  kf_scale : Text
}.

(** An [Animation] object in the host's store. *)
Record Animation := {
  anim_created : Z;
  anim_currentTime : Z;
  anim_cancelled : bool;
  anim_keyframes : Keyframes
}.

Definition AnimationHandle := nat.

(** The code after each [await]. *)
Inductive Continuation :=
| AfterTouchDelay (event : PointerEvent)               (* lines 170-172 *)
| AfterMinimumPress (animation : option AnimationHandle). (* lines 143-144 *)

(** The hook's React state and refs, and the part of the host it touches. *)
Record World := {
  hovered : bool;
  pressed : bool;
  stateRef : StateType;
  rippleStartEventRef : option PointerEvent;
  surfaceRef : option DOMRect;
  growAnimationRef : option AnimationHandle;
  initialSizeRef : float;
  rippleSizeRef : Text;
  rippleScaleRef : Text;
  (* host *)
  isBrowser : bool;
  scrollX : float;
  scrollY : float;
  now : Z;
  timers : list (Z * Continuation);
  animations : list Animation
}.

Definition setHovered (v : bool) (w : World) : World :=
  {| hovered := v; pressed := pressed w; stateRef := stateRef w;
     rippleStartEventRef := rippleStartEventRef w; surfaceRef := surfaceRef w;
     growAnimationRef := growAnimationRef w; initialSizeRef := initialSizeRef w;
     rippleSizeRef := rippleSizeRef w; rippleScaleRef := rippleScaleRef w;
     isBrowser := isBrowser w; scrollX := scrollX w; scrollY := scrollY w;
     now := now w; timers := timers w; animations := animations w |}.

Definition setPressed (v : bool) (w : World) : World :=
  {| hovered := hovered w; pressed := v; stateRef := stateRef w;
     rippleStartEventRef := rippleStartEventRef w; surfaceRef := surfaceRef w;
     growAnimationRef := growAnimationRef w; initialSizeRef := initialSizeRef w;
     rippleSizeRef := rippleSizeRef w; rippleScaleRef := rippleScaleRef w;
     isBrowser := isBrowser w; scrollX := scrollX w; scrollY := scrollY w;
     now := now w; timers := timers w; animations := animations w |}.

Definition set_stateRef (v : StateType) (w : World) : World :=
  {| hovered := hovered w; pressed := pressed w; stateRef := v;
     rippleStartEventRef := rippleStartEventRef w; surfaceRef := surfaceRef w;
     growAnimationRef := growAnimationRef w; initialSizeRef := initialSizeRef w;
     rippleSizeRef := rippleSizeRef w; rippleScaleRef := rippleScaleRef w;
     isBrowser := isBrowser w; scrollX := scrollX w; scrollY := scrollY w;
     now := now w; timers := timers w; animations := animations w |}.

Definition set_rippleStartEventRef (v : option PointerEvent) (w : World) : World :=
  {| hovered := hovered w; pressed := pressed w; stateRef := stateRef w;
     rippleStartEventRef := v; surfaceRef := surfaceRef w;
     growAnimationRef := growAnimationRef w; initialSizeRef := initialSizeRef w;
     rippleSizeRef := rippleSizeRef w; rippleScaleRef := rippleScaleRef w;
     isBrowser := isBrowser w; scrollX := scrollX w; scrollY := scrollY w;
     now := now w; timers := timers w; animations := animations w |}.

Definition set_growAnimationRef (v : option AnimationHandle) (w : World) : World :=
  {| hovered := hovered w; pressed := pressed w; stateRef := stateRef w;
     rippleStartEventRef := rippleStartEventRef w; surfaceRef := surfaceRef w;
     growAnimationRef := v; initialSizeRef := initialSizeRef w;
     rippleSizeRef := rippleSizeRef w; rippleScaleRef := rippleScaleRef w;
     isBrowser := isBrowser w; scrollX := scrollX w; scrollY := scrollY w;
     now := now w; timers := timers w; animations := animations w |}.

Definition set_sizeRefs (initialSize : float) (size scale : Text) (w : World) : World :=
  {| hovered := hovered w; pressed := pressed w; stateRef := stateRef w;
     rippleStartEventRef := rippleStartEventRef w; surfaceRef := surfaceRef w;
     growAnimationRef := growAnimationRef w; initialSizeRef := initialSize;
     rippleSizeRef := size; rippleScaleRef := scale;
     isBrowser := isBrowser w; scrollX := scrollX w; scrollY := scrollY w;
     now := now w; timers := timers w; animations := animations w |}.

Definition set_now (v : Z) (w : World) : World :=
  {| hovered := hovered w; pressed := pressed w; stateRef := stateRef w;
     rippleStartEventRef := rippleStartEventRef w; surfaceRef := surfaceRef w;
     growAnimationRef := growAnimationRef w; initialSizeRef := initialSizeRef w;
     rippleSizeRef := rippleSizeRef w; rippleScaleRef := rippleScaleRef w;
     isBrowser := isBrowser w; scrollX := scrollX w; scrollY := scrollY w;
     now := v; timers := timers w; animations := animations w |}.

Definition set_timers (v : list (Z * Continuation)) (w : World) : World :=
  {| hovered := hovered w; pressed := pressed w; stateRef := stateRef w;
     rippleStartEventRef := rippleStartEventRef w; surfaceRef := surfaceRef w;
     growAnimationRef := growAnimationRef w; initialSizeRef := initialSizeRef w;
     rippleSizeRef := rippleSizeRef w; rippleScaleRef := rippleScaleRef w;
     isBrowser := isBrowser w; scrollX := scrollX w; scrollY := scrollY w;
     now := now w; timers := v; animations := animations w |}.

Definition set_animations (v : list Animation) (w : World) : World :=
  {| hovered := hovered w; pressed := pressed w; stateRef := stateRef w;
     rippleStartEventRef := rippleStartEventRef w; surfaceRef := surfaceRef w;
     growAnimationRef := growAnimationRef w; initialSizeRef := initialSizeRef w;
     rippleSizeRef := rippleSizeRef w; rippleScaleRef := rippleScaleRef w;
     isBrowser := isBrowser w; scrollX := scrollX w; scrollY := scrollY w;
     now := now w; timers := timers w; animations := v |}.

Definition set_layout (surface : option DOMRect) (sx sy : float) (w : World) : World :=
  {| hovered := hovered w; pressed := pressed w; stateRef := stateRef w;
     rippleStartEventRef := rippleStartEventRef w; surfaceRef := surface;
     growAnimationRef := growAnimationRef w; initialSizeRef := initialSizeRef w;
     rippleSizeRef := rippleSizeRef w; rippleScaleRef := rippleScaleRef w;
     isBrowser := isBrowser w; scrollX := sx; scrollY := sy;
     now := now w; timers := timers w; animations := animations w |}.

(** ** The host: timers and animations *)

(** [setTimeout(resolve, delay)] with the continuation of the awaiting
    function: the timer becomes due [delay] ms from now (a negative delay
    counts as 0). *)
Definition setTimeout (delay : Z) (k : Continuation) (w : World) : World :=
  set_timers (timers w ++ [(now w + Z.max 0 delay, k)]) w.

(** [animation?.currentTime] when it is a number: an animation that was not
    cancelled reports the current time the host's timeline gave it; a
    cancelled animation has no current time. *)
Definition currentTime (animation : option AnimationHandle) (w : World) : option Z :=
  match animation with
  | None => None
  | Some h =>
      match nth_error (animations w) h with
      | Some a => if anim_cancelled a then None else Some (anim_currentTime a)
      | None => None
      end
  end.

Fixpoint update_nth {A} (n : nat) (f : A -> A) (l : list A) : list A :=
  match l, n with
  | [], _ => []
  | a :: l', O => f a :: l'
  | a :: l', S n' => a :: update_nth n' f l'
  end.

Fixpoint remove_nth {A} (n : nat) (l : list A) : list A :=
  match l, n with
  | [], _ => []
  | _ :: l', O => l'
  | a :: l', S n' => a :: remove_nth n' l'
  end.

Definition cancel_animation (a : Animation) : Animation :=
  {| anim_created := anim_created a; anim_currentTime := anim_currentTime a;
     anim_cancelled := true; anim_keyframes := anim_keyframes a |}.

(** The host's timeline moves an animation to a new current time. *)
Definition seek (t : Z) (a : Animation) : Animation :=
  {| anim_created := anim_created a; anim_currentTime := t;
     anim_cancelled := anim_cancelled a; anim_keyframes := anim_keyframes a |}.

(** [growAnimationRef.current?.cancel()] *)
Definition cancel (animation : option AnimationHandle) (w : World) : World :=
  match animation with
  | None => w
  | Some h => set_animations (update_nth h cancel_animation (animations w)) w
  end.

(** [surface.animate(keyframes, options)]: a new [Animation] object, created
    now, whose current time is 0; its handle is the next free one. *)
Definition animate (kf : Keyframes) (w : World) : AnimationHandle * World :=
  (List.length (animations w),
   set_animations
     (animations w ++ [{| anim_created := now w; anim_currentTime := 0;
                          anim_cancelled := false; anim_keyframes := kf |}]) w).

(** ** The hook *)

(** lines 51-53 *)
Definition isTouch (event : PointerEvent) : bool :=
  String.eqb (pointerType event) "touch".

(** lines 55-64 *)
Definition shouldReactToEvent (disabled : bool) (w : World) (event : PointerEvent) : bool :=
  if (disabled || negb (isPrimary event))%bool then false
  else if match rippleStartEventRef w with
          | Some origin => negb (pointerId origin =? pointerId event)
          | None => false
          end then false
  else if (String.eqb (type event) "pointerenter"
           || String.eqb (type event) "pointerleave")%bool
       then negb (isTouch event)
  else
    let isPrimaryButton := (buttons event =? 1) in
    (isTouch event || isPrimaryButton)%bool.

(** The locals of [determineRippleSize] (lines 67-72). *)
Record RippleSize := {
  maxDim : float;
  softEdgeSize : float;
  initialSize : float;
  hypotenuse : float;
  maxRadius : float;
  scale : float
}.

Definition rippleSize (element : DOMRect) : RippleSize :=
  let maxDim := JsMath.max (height element) (width element) in
  let softEdgeSize :=
    JsMath.max (SOFT_EDGE_CONTAINER_RATIO * maxDim)%float SOFT_EDGE_MINIMUM_SIZE in
  let initialSize := JsMath.floor (maxDim * INITIAL_ORIGIN_SCALE)%float in
  let hypotenuse :=
    JsMath.sqrt (JsMath.square (width element) + JsMath.square (height element))%float in
  let maxRadius := (hypotenuse + PADDING)%float in
  {| maxDim := maxDim; softEdgeSize := softEdgeSize; initialSize := initialSize;
     hypotenuse := hypotenuse; maxRadius := maxRadius;
     scale := ((maxRadius + softEdgeSize) / initialSize)%float |}.

(** lines 66-76 *)
Definition determineRippleSize (element : DOMRect) (w : World) : World :=
  let s := rippleSize element in
  set_sizeRefs (initialSize s) (PxText (initialSize s)) (NumberText (scale s)) w.

(** lines 78-89 *)
Definition getNormalizedPointerEventCoords
    (element : DOMRect) (event : PointerEvent) (w : World) : Point :=
  if negb (isBrowser w) then {| pt_x := 0; pt_y := 0 |}
  else
    let documentX := (scrollX w + rect_left element)%float in
    let documentY := (scrollY w + rect_top element)%float in
    {| pt_x := (pageX event - documentX)%float;
       pt_y := (pageY event - documentY)%float |}.

(** lines 91-105 *)
Definition getTranslationCoordinates
    (element : DOMRect) (event : option PointerEvent) (w : World) : Point * Point :=
  let endPoint :=
    {| pt_x := ((width element - initialSizeRef w) / 2)%float;
       pt_y := ((height element - initialSizeRef w) / 2)%float |} in
  let startPoint :=
    match event with
    | Some event => getNormalizedPointerEventCoords element event w
    | None => {| pt_x := (width element / 2)%float; pt_y := (height element / 2)%float |}
    end in
  let startPoint :=
    {| pt_x := (pt_x startPoint - initialSizeRef w / 2)%float;
       pt_y := (pt_y startPoint - initialSizeRef w / 2)%float |} in
  (startPoint, endPoint).

(** lines 107-130 *)
Definition startPressAnimation (event : option PointerEvent) (w : World) : World :=
  if negb (isBrowser w) then w
  else
    match surfaceRef w with
    | None => w
    | Some surface =>
        let w := setPressed true w in
        let w := cancel (growAnimationRef w) w in
        let w := determineRippleSize surface w in
        let '(startPoint, endPoint) := getTranslationCoordinates surface event w in
        let '(animation, w) :=
          animate {| kf_size := rippleSizeRef w;
                     kf_translateStart := startPoint;
                     kf_translateEnd := endPoint;
                     kf_scale := rippleScaleRef w |} w in
        set_growAnimationRef (Some animation) w
    end.

Definition handle_eqb (a b : option AnimationHandle) : bool :=
  match a, b with
  | None, None => true
  | Some x, Some y => Nat.eqb x y
  | _, _ => false
  end.

(** lines 132-145, up to the [await]. [pressAnimationPlayState] is
    [Infinity] unless [currentTime] is a number; [Infinity >= 225] holds, so
    only a number is ever subtracted from [MINIMUM_PRESS_MS]. *)
Definition endPressAnimation (w : World) : World :=
  let w := set_rippleStartEventRef None w in
  let w := set_stateRef INACTIVE w in
  let animation := growAnimationRef w in
  match currentTime animation w with
  | None => setPressed false w
  | Some pressAnimationPlayState =>
      if MINIMUM_PRESS_MS <=? pressAnimationPlayState then setPressed false w
      else setTimeout (MINIMUM_PRESS_MS - pressAnimationPlayState)
                      (AfterMinimumPress animation) w
  end.

(** The code after the two [await]s (lines 143-144 and 170-172). *)
Definition resume (k : Continuation) (w : World) : World :=
  match k with
  | AfterMinimumPress animation =>
      if negb (handle_eqb (growAnimationRef w) animation) then w
      else setPressed false w
  | AfterTouchDelay event =>
      if negb (StateType_eqb (stateRef w) TOUCH_DELAY) then w
      else startPressAnimation (Some event) (set_stateRef HOLDING w)
  end.

(** lines 147-150 *)
Definition onPointerEnter (disabled : bool) (event : PointerEvent) (w : World) : World :=
  if negb (shouldReactToEvent disabled w event) then w
  else setHovered true w.

(** lines 152-156 *)
Definition onPointerLeave (disabled : bool) (event : PointerEvent) (w : World) : World :=
  if negb (shouldReactToEvent disabled w event) then w
  else
    let w := setHovered false w in
    if negb (StateType_eqb (stateRef w) INACTIVE) then endPressAnimation w else w.

(** lines 158-162 *)
Definition onPointerUp (disabled : bool) (event : PointerEvent) (w : World) : World :=
  if negb (shouldReactToEvent disabled w event) then w
  else if StateType_eqb (stateRef w) HOLDING then set_stateRef WAITING_FOR_CLICK w
  else if StateType_eqb (stateRef w) TOUCH_DELAY then
    let w := set_stateRef WAITING_FOR_CLICK w in
    startPressAnimation (rippleStartEventRef w) w
  else w.

(** lines 164-173, up to the [await] *)
Definition onPointerDown (disabled : bool) (event : PointerEvent) (w : World) : World :=
  if negb (shouldReactToEvent disabled w event) then w
  else
    let w := set_rippleStartEventRef (Some event) w in
    if negb (isTouch event) then
      let w := set_stateRef WAITING_FOR_CLICK w in
      startPressAnimation (Some event) w
    else
      let w := set_stateRef TOUCH_DELAY w in
      setTimeout TOUCH_DELAY_MS (AfterTouchDelay event) w.

(** lines 175-178 *)
Definition onPointerCancel (disabled : bool) (event : PointerEvent) (w : World) : World :=
  if negb (shouldReactToEvent disabled w event) then w
  else endPressAnimation w.

(** lines 180-184 *)
Definition onClick (disabled : bool) (w : World) : World :=
  if disabled then w
  else if StateType_eqb (stateRef w) WAITING_FOR_CLICK then endPressAnimation w
  else if StateType_eqb (stateRef w) INACTIVE then
    endPressAnimation (startPressAnimation None w)
  else w.

(** ** Running the hook *)

(** A call of one of the six handlers of line 186. *)
Inductive HandlerCall :=
| PointerEnter (event : PointerEvent)
| PointerLeave (event : PointerEvent)
| PointerDown (event : PointerEvent)
| PointerUp (event : PointerEvent)
| PointerCancel (event : PointerEvent)
| Click.

Definition handler (disabled : bool) (c : HandlerCall) (w : World) : World :=
  match c with
  | PointerEnter e => onPointerEnter disabled e w
  | PointerLeave e => onPointerLeave disabled e w
  | PointerDown e => onPointerDown disabled e w
  | PointerUp e => onPointerUp disabled e w
  | PointerCancel e => onPointerCancel disabled e w
  | Click => onClick disabled w
  end.

(** What can happen to a mounted hook: a handler is called (from a render
    with the given [disabled]), time passes, the host runs a timer that is
    due (any of them, possibly late), the page lays the surface out again
    (mounts, unmounts, resizes or scrolls it), or the host's timeline gives
    an animation a new current time (any value: the hook only reads it). *)
Inductive Input :=
| Call (disabled : bool) (c : HandlerCall)
| Tick (dt : Z)
| Fire (i : nat)
| Layout (surface : option DOMRect) (sx sy : float)
| Timeline (animation : AnimationHandle) (t : Z).

Definition exec (i : Input) (w : World) : World :=
  match i with
  | Call disabled c => handler disabled c w
  | Tick dt => set_now (now w + Z.max 0 dt) w
  | Fire n =>
      match nth_error (timers w) n with
      | Some (due, k) =>
          if due <=? now w then resume k (set_timers (remove_nth n (timers w)) w)
          else w
      | None => w
      end
  | Layout surface sx sy => set_layout surface sx sy w
  | Timeline animation t =>
      set_animations (update_nth animation (seek t) (animations w)) w
  end.

Fixpoint run (inputs : list Input) (w : World) : World :=
  match inputs with
  | [] => w
  | i :: rest => run rest (exec i w)
  end.

(** The hook after its first render (lines 40-49), at time 0. *)
Definition mount (browser : bool) (surface : option DOMRect) (sx sy : float) : World :=
  {| hovered := false; pressed := false; stateRef := INACTIVE;
     rippleStartEventRef := None; surfaceRef := surface;
     growAnimationRef := None; initialSizeRef := 0%float;
     rippleSizeRef := EmptyText; rippleScaleRef := EmptyText;
     isBrowser := browser; scrollX := sx; scrollY := sy;
     now := 0; timers := []; animations := [] |}.

(** ** The sizing formulas as the specification words them (section 4.1) *)

Module Spec.

Definition maxDimension (W H : float) : float := JsMath.max W H.

Definition softEdge (W H : float) : float :=
  JsMath.max (0x1.6666666666666p-2 * maxDimension W H)%float 75%float.

Definition initialDiameter (W H : float) : float :=
  JsMath.floor (maxDimension W H * 0x1.999999999999ap-3)%float.

Definition hypotenuse (W H : float) : float :=
  JsMath.sqrt (W * W + H * H)%float.

Definition maxRadius (W H : float) : float := (hypotenuse W H + 10)%float.

Definition targetScale (W H : float) : float :=
  ((maxRadius W H + softEdge W H) / initialDiameter W H)%float.

End Spec.

(** ** Vocabulary of the properties *)

(** A hover-only event, and an event of a pointer other than the one whose
    origin event is tracked. *)
Definition hoverOnly (e : PointerEvent) : Prop :=
  type e = "pointerenter"%string \/ type e = "pointerleave"%string.

Definition ownedByOther (w : World) (e : PointerEvent) : Prop :=
  exists origin, rippleStartEventRef w = Some origin /\ pointerId origin <> pointerId e.

(** Nothing shown and nothing pending. *)
Definition quiet (w : World) : Prop :=
  hovered w = false /\ pressed w = false /\ timers w = [].

(** The animation object a press creates. *)
Definition pressAnimation (event : option PointerEvent) (surface : DOMRect) (w : World) : Animation :=
  let w1 := determineRippleSize surface w in
  {| anim_created := now w; anim_currentTime := 0; anim_cancelled := false;
     anim_keyframes :=
       {| kf_size := rippleSizeRef w1;
          kf_translateStart := fst (getTranslationCoordinates surface event w1);
          kf_translateEnd := snd (getTranslationCoordinates surface event w1);
          kf_scale := rippleScaleRef w1 |} |}.

(** [growAnimationRef] is the animation created last, and it was not
    cancelled; [pressed] is only set by a press that installed an animation;
    and a pending release wait captured an animation of the store. *)
Record consistent (w : World) : Prop := {
  current_is_last :
    match growAnimationRef w with
    | None => animations w = []
    | Some h => S h = List.length (animations w)
    end;
  current_is_live :
    forall h a, growAnimationRef w = Some h -> nth_error (animations w) h = Some a ->
                anim_cancelled a = false;
  pressed_has_animation : pressed w = true -> growAnimationRef w <> None;
  release_waits :
    forall due c, In (due, AfterMinimumPress c) (timers w) ->
    exists h a, c = Some h /\ nth_error (animations w) h = Some a
}.




(** ** A button on a page, for concrete runs *)

Definition demo_surface : DOMRect :=
  {| rect_left := 8; rect_top := 16; width := 100; height := 40 |}.

Definition demo_mount : World := mount true (Some demo_surface) 0 0.

Definition demo_event (ty : string) (id : Z) (pt : string) (b : Z) : PointerEvent :=
  {| type := ty; pointerId := id; isPrimary := true; pointerType := pt;
     buttons := b; pageX := 38; pageY := 26 |}.



(** A second press 5 ms after a quick click was released, when the first
    wait is still pending; the first wait then completes at 225 ms and
    leaves [pressed] on. *)
Definition demo_second_press : Input :=
  Call false (PointerDown (demo_event "pointerdown" 1 "mouse" 1)).

Definition demo_released : list Input :=
  [ Call false (PointerDown (demo_event "pointerdown" 1 "mouse" 1));
    Tick 10; Timeline 0%nat 10; Call false Click; Tick 5 ].

(** A touch is down (pointer 1); a second finger (pointer 2, itself a
    primary pointer of its type) goes down while the first is tracked. *)
Definition demo_touch_down : PointerEvent := demo_event "pointerdown" 1 "touch" 1.

Definition demo_tracked : World :=
  run [Call false (PointerDown demo_touch_down)] demo_mount.

(** Every handler called from renders with [disabled = true]. *)
Definition demo_disabled_inputs : list Input :=
  [ Call true (PointerEnter (demo_event "pointerenter" 1 "mouse" 0));
    Call true (PointerDown (demo_event "pointerdown" 1 "mouse" 1));
    Tick 300;
    Call true (PointerUp (demo_event "pointerup" 1 "mouse" 0));
    Call true Click;
    Fire 0;
    Call true (PointerLeave (demo_event "pointerleave" 1 "mouse" 0)) ].

(** A second finger, elsewhere on the button. *)
Definition demo_second_touch : PointerEvent :=
  {| type := "pointerdown"; pointerId := 2; isPrimary := true; pointerType := "touch";
     buttons := 1; pageX := 90; pageY := 40 |}.

(** ** The phase machine and the invariants of a run *)

(** The edges the handlers and the touch-delay continuation take: in a
    state [w], the input moves the phase to the given one. A [pointerdown]
    is taken from every phase. *)
Inductive edge (w : World) : Input -> StateType -> Prop :=
| edge_down_direct d e :
    shouldReactToEvent d w e = true -> isTouch e = false ->
    edge w (Call d (PointerDown e)) WAITING_FOR_CLICK
| edge_down_touch d e :
    shouldReactToEvent d w e = true -> isTouch e = true ->
    edge w (Call d (PointerDown e)) TOUCH_DELAY
| edge_up d e :
    shouldReactToEvent d w e = true ->
    stateRef w = TOUCH_DELAY \/ stateRef w = HOLDING ->
    edge w (Call d (PointerUp e)) WAITING_FOR_CLICK
| edge_leave d e :
    shouldReactToEvent d w e = true -> stateRef w <> INACTIVE ->
    edge w (Call d (PointerLeave e)) INACTIVE
| edge_cancel d e :
    shouldReactToEvent d w e = true ->
    edge w (Call d (PointerCancel e)) INACTIVE
| edge_click :
    stateRef w = WAITING_FOR_CLICK ->
    edge w (Call false Click) INACTIVE
| edge_delay n due e :
    nth_error (timers w) n = Some (due, AfterTouchDelay e) -> due <= now w ->
    stateRef w = TOUCH_DELAY ->
    edge w (Fire n) HOLDING.

(** An origin event is tracked exactly in the phases other than INACTIVE,
    and the two touch phases have a touch origin. *)
Definition session_ok (w : World) : Prop :=
  (stateRef w = INACTIVE <-> rippleStartEventRef w = None)
  /\ (stateRef w = TOUCH_DELAY \/ stateRef w = HOLDING ->
      exists origin, rippleStartEventRef w = Some origin /\ isTouch origin = true).

(** Every animation of the store but the current one was cancelled. *)
Definition one_live_animation (w : World) : Prop :=
  forall h a, nth_error (animations w) h = Some a -> anim_cancelled a = false ->
              growAnimationRef w = Some h.

(** The host reports no negative current time along [inputs]. *)
Definition readings_nonnegative (inputs : list Input) : Prop :=
  forall h t, In (Timeline h t) inputs -> 0 <= t.

(** No animation is from the future or reports a negative current time; a
    release wait is due at most [MINIMUM_PRESS_MS] from now and a touch
    delay at most [TOUCH_DELAY_MS] from now. *)
Definition timers_on_time (w : World) : Prop :=
  (forall h a, nth_error (animations w) h = Some a ->
               anim_created a <= now w /\ 0 <= anim_currentTime a)
  /\ (forall due c, In (due, AfterMinimumPress c) (timers w) ->
      due <= now w + MINIMUM_PRESS_MS)
  /\ (forall due e, In (due, AfterTouchDelay e) (timers w) ->
      due <= now w + TOUCH_DELAY_MS).

(** A press that was released but is still shown has its release wait
    pending. *)
Definition release_pending (w : World) : Prop :=
  stateRef w = INACTIVE -> pressed w = true ->
  exists due, In (due, AfterMinimumPress (growAnimationRef w)) (timers w).

(** No press can take effect: not in a browser, or no surface attached. *)
Definition no_surface (w : World) : Prop :=
  isBrowser w = false \/ surfaceRef w = None.

(** * Properties *)

(** Unfolds the setters and projections and leaves arithmetic alone. *)
Ltac fields :=
  cbn -[Z.add Z.sub Z.max Z.min Z.leb Z.ltb Z.eqb Z.mul String.eqb Nat.eqb
        nth_error app List.length].

(** ** Event admissibility *)

Section Admissibility.

Variable disabled : bool.
Variable w : World.
Variable e : PointerEvent.

Lemma hoverOnly_test :
  (String.eqb (type e) "pointerenter" || String.eqb (type e) "pointerleave")%bool = true
  <-> hoverOnly e.
Proof.
  unfold hoverOnly. rewrite orb_true_iff, !String.eqb_eq. tauto.
Qed.

Lemma ownedByOther_test :
  match rippleStartEventRef w with
  | Some origin => negb (pointerId origin =? pointerId e)
  | None => false
  end = true <-> ownedByOther w e.
Proof.
  unfold ownedByOther. destruct (rippleStartEventRef w) as [origin|].
  - rewrite negb_true_iff, Z.eqb_neq. split.
    + intros H. exists origin. auto.
    + intros [o [Ho Hne]]. inversion Ho; subst. exact Hne.
  - split; [discriminate | intros [o [Ho _]]; discriminate].
Qed.

Lemma isTouch_true : isTouch e = true <-> pointerType e = "touch"%string.
Proof. unfold isTouch. apply String.eqb_eq. Qed.

Lemma shouldReactToEvent_false_iff :
  shouldReactToEvent disabled w e = false <->
  disabled = true
  \/ isPrimary e = false
  \/ ownedByOther w e
  \/ (hoverOnly e /\ pointerType e = "touch"%string)
  \/ (~ hoverOnly e /\ pointerType e <> "touch"%string /\ buttons e <> 1).
Proof.
  pose proof ownedByOther_test as Ho. pose proof hoverOnly_test as Hh.
  pose proof isTouch_true as Ht. pose proof (Z.eqb_eq (buttons e) 1) as Hb.
  unfold shouldReactToEvent.
  destruct disabled, (isPrimary e); simpl; try tauto.
  destruct (match rippleStartEventRef w with
            | Some origin => negb (pointerId origin =? pointerId e)
            | None => false
            end); [tauto |].
  destruct (String.eqb (type e) "pointerenter" || String.eqb (type e) "pointerleave")%bool,
           (isTouch e), (buttons e =? 1); simpl;
    intuition (discriminate || congruence).
Qed.

(** A rejected event leaves everything as it was: no state change, no
    timer, no animation. *)
Lemma rejected_event_ignored :
  shouldReactToEvent disabled w e = false ->
  forall c, In c [PointerEnter e; PointerLeave e; PointerDown e; PointerUp e; PointerCancel e] ->
  handler disabled c w = w.
Proof.
  intros Hrej c Hc. simpl in Hc.
  repeat destruct Hc as [Hc | Hc]; try contradiction; subst c; simpl;
    unfold onPointerEnter, onPointerLeave, onPointerDown, onPointerUp, onPointerCancel;
    rewrite Hrej; reflexivity.
Qed.

End Admissibility.

(** ** What a disabled hook does *)

Lemma handler_disabled c w : handler true c w = w.
Proof. destruct c; reflexivity. Qed.

Lemma exec_quiet i w :
  (forall d c, i = Call d c -> d = true) -> quiet w -> quiet (exec i w).
Proof.
  intros Hd (Hh & Hp & Ht). destruct i as [d c | dt | n | s sx sy | h t]; simpl.
  - rewrite (Hd d c eq_refl), handler_disabled. repeat split; assumption.
  - repeat split; assumption.
  - rewrite Ht. destruct n; simpl; repeat split; assumption.
  - repeat split; assumption.
  - repeat split; assumption.
Qed.

Lemma run_quiet inputs :
  forall w, (forall d c, In (Call d c) inputs -> d = true) -> quiet w -> quiet (run inputs w).
Proof.
  induction inputs as [| i rest IH]; intros w Hd Hq; simpl.
  - exact Hq.
  - apply IH.
    + intros d c Hin. apply (Hd d c). right. exact Hin.
    + apply exec_quiet; [| exact Hq].
      intros d c ->. apply (Hd d c). left. reflexivity.
Qed.

(** ** The release sequence *)

Lemma endPressAnimation_refs w :
  rippleStartEventRef (endPressAnimation w) = None
  /\ stateRef (endPressAnimation w) = INACTIVE
  /\ growAnimationRef (endPressAnimation w) = growAnimationRef w
  /\ animations (endPressAnimation w) = animations w
  /\ now (endPressAnimation w) = now w
  /\ hovered (endPressAnimation w) = hovered w.
Proof.
  unfold endPressAnimation. simpl.
  destruct (currentTime _ _) as [t|]; [destruct (MINIMUM_PRESS_MS <=? t) |];
    repeat split; reflexivity.
Qed.

Lemma currentTime_set_refs animation w ev st :
  currentTime animation (set_stateRef st (set_rippleStartEventRef ev w))
  = currentTime animation w.
Proof. reflexivity. Qed.

Lemma endPressAnimation_immediate w :
  match currentTime (growAnimationRef w) w with
  | Some t => MINIMUM_PRESS_MS <= t
  | None => True
  end ->
  pressed (endPressAnimation w) = false
  /\ timers (endPressAnimation w) = timers w.
Proof.
  unfold endPressAnimation. simpl. rewrite currentTime_set_refs.
  destruct (currentTime (growAnimationRef w) w) as [t|]; intros H.
  - apply Z.leb_le in H. rewrite H. split; reflexivity.
  - split; reflexivity.
Qed.

Lemma endPressAnimation_deferred w t :
  currentTime (growAnimationRef w) w = Some t ->
  t < MINIMUM_PRESS_MS ->
  pressed (endPressAnimation w) = pressed w
  /\ timers (endPressAnimation w)
     = timers w ++ [(now w + (MINIMUM_PRESS_MS - t), AfterMinimumPress (growAnimationRef w))].
Proof.
  intros Ht Hlt. unfold endPressAnimation. fields. rewrite currentTime_set_refs, Ht.
  apply Z.leb_gt in Hlt as Hb. rewrite Hb. unfold setTimeout. fields.
  rewrite Z.max_r by lia. split; reflexivity.
Qed.

(** ** The animation store *)

Lemma update_nth_length {A} (f : A -> A) l : forall n, List.length (update_nth n f l) = List.length l.
Proof.
  induction l as [| a l IH]; intros [| n]; simpl; try reflexivity.
  rewrite IH. reflexivity.
Qed.

Lemma nth_error_update_nth {A} (f : A -> A) l :
  forall n m,
    nth_error (update_nth n f l) m
    = if Nat.eqb n m then option_map f (nth_error l m) else nth_error l m.
Proof.
  induction l as [| a l IH]; intros [| n] [| m]; simpl; try reflexivity.
  - destruct (Nat.eqb n m); reflexivity.
  - apply IH.
Qed.

Lemma In_remove_nth {A} (x : A) l : forall n, In x (remove_nth n l) -> In x l.
Proof.
  induction l as [| a l IH]; intros [| n]; simpl; auto.
  intros [H | H]; [left; exact H | right; exact (IH n H)].
Qed.

Lemma cancel_length animation w :
  List.length (animations (cancel animation w)) = List.length (animations w).
Proof.
  destruct animation as [h|]; simpl; [apply update_nth_length | reflexivity].
Qed.

(** A cancelled or replaced animation keeps its creation time and its
    current time: the store only ever grows, and [cancel] only sets the
    flag. *)
Lemma cancel_keeps_created animation w h a :
  nth_error (animations w) h = Some a ->
  exists a', nth_error (animations (cancel animation w)) h = Some a'
             /\ anim_created a' = anim_created a
             /\ anim_currentTime a' = anim_currentTime a.
Proof.
  intros Ha. destruct animation as [g|]; simpl.
  - rewrite nth_error_update_nth, Ha. destruct (Nat.eqb g h); simpl; eauto.
  - eauto.
Qed.

(** The timeline only moves the current time of the animation it names. *)
Lemma seek_entry t g l h :
  nth_error (update_nth g (seek t) l) h
  = option_map (fun a => if Nat.eqb g h then seek t a else a) (nth_error l h).
Proof.
  rewrite nth_error_update_nth.
  destruct (Nat.eqb g h), (nth_error l h); reflexivity.
Qed.

(** ** Starting a press *)

Lemma startPressAnimation_skipped event w :
  isBrowser w = false \/ surfaceRef w = None -> startPressAnimation event w = w.
Proof.
  unfold startPressAnimation. intros [H | H]; rewrite H; simpl; [reflexivity |].
  destruct (isBrowser w); reflexivity.
Qed.

Lemma startPressAnimation_started event w surface :
  isBrowser w = true -> surfaceRef w = Some surface ->
  startPressAnimation event w
  = set_growAnimationRef (Some (List.length (animations w)))
      (set_animations
         (animations (cancel (growAnimationRef w) w) ++ [pressAnimation event surface w])
         (determineRippleSize surface (setPressed true w))).
Proof.
  intros Hb Hs. unfold startPressAnimation. rewrite Hb, Hs. fields.
  rewrite <- (cancel_length (growAnimationRef w) w).
  destruct (growAnimationRef w); reflexivity.
Qed.

Lemma startPressAnimation_cases event w :
  startPressAnimation event w = w
  \/ exists surface, isBrowser w = true /\ surfaceRef w = Some surface.
Proof.
  destruct (isBrowser w) eqn:Hb.
  - destruct (surfaceRef w) as [s|] eqn:Hs.
    + right. eauto.
    + left. apply startPressAnimation_skipped. auto.
  - left. apply startPressAnimation_skipped. auto.
Qed.

Lemma startPressAnimation_frame event w :
  let w' := startPressAnimation event w in
  hovered w' = hovered w /\ stateRef w' = stateRef w
  /\ rippleStartEventRef w' = rippleStartEventRef w
  /\ timers w' = timers w /\ now w' = now w
  /\ surfaceRef w' = surfaceRef w /\ isBrowser w' = isBrowser w.
Proof.
  destruct (startPressAnimation_cases event w) as [H | (s & Hb & Hs)]; fields.
  - rewrite H. repeat split; reflexivity.
  - rewrite (startPressAnimation_started event w s Hb Hs). repeat split; reflexivity.
Qed.

Lemma startPressAnimation_effect event w surface :
  isBrowser w = true -> surfaceRef w = Some surface ->
  let w' := startPressAnimation event w in
  pressed w' = true
  /\ growAnimationRef w' = Some (List.length (animations w))
  /\ nth_error (animations w) (List.length (animations w)) = None
  /\ nth_error (animations w') (List.length (animations w))
     = Some (pressAnimation event surface w)
  /\ List.length (animations w') = S (List.length (animations w))
  /\ (forall h a, growAnimationRef w = Some h -> nth_error (animations w) h = Some a ->
      nth_error (animations w') h = Some (cancel_animation a)).
Proof.
  intros Hb Hs. fields. rewrite (startPressAnimation_started event w surface Hb Hs). fields.
  pose proof (cancel_length (growAnimationRef w) w) as Hlen.
  repeat split.
  - apply nth_error_None. apply Nat.le_refl.
  - rewrite nth_error_app2 by (rewrite Hlen; apply Nat.le_refl).
    rewrite Hlen, Nat.sub_diag. reflexivity.
  - rewrite length_app, Hlen. simpl. apply Nat.add_1_r.
  - intros h a Hg Ha. rewrite Hg. fields.
    assert (Hlt : (h < List.length (animations w))%nat)
      by (apply nth_error_Some; rewrite Ha; discriminate).
    rewrite nth_error_app1 by (rewrite update_nth_length; exact Hlt).
    rewrite nth_error_update_nth, Nat.eqb_refl, Ha. reflexivity.
Qed.

(** ** An invariant of every run *)

(** Only four fields matter to [consistent]. *)
Lemma consistent_ext w w' :
  growAnimationRef w' = growAnimationRef w -> animations w' = animations w ->
  (pressed w' = true -> pressed w = true) ->
  (forall t, In t (timers w') -> In t (timers w)) ->
  consistent w -> consistent w'.
Proof.
  intros Hg Ha Hp Ht [H1 H2 H3 H4]. split.
  - rewrite Hg, Ha. exact H1.
  - rewrite Hg, Ha. exact H2.
  - rewrite Hg. intros H. apply H3, Hp, H.
  - rewrite Ha. intros due c Hin. apply (H4 due), Ht, Hin.
Qed.

Lemma consistent_mount browser surface sx sy : consistent (mount browser surface sx sy).
Proof.
  split; simpl; try reflexivity; try discriminate; try contradiction.
Qed.

Lemma consistent_startPressAnimation event w :
  consistent w -> consistent (startPressAnimation event w).
Proof.
  intros Hc. destruct (startPressAnimation_cases event w) as [H | (s & Hb & Hs)].
  - rewrite H. exact Hc.
  - destruct (startPressAnimation_effect event w s Hb Hs) as (Hp & Hg & _ & Hnew & Hlen & _).
    destruct (startPressAnimation_frame event w) as (_ & _ & _ & Ht & _).
    destruct Hc as [H1 H2 H3 H4]. split.
    + rewrite Hg, Hlen. reflexivity.
    + intros h a Hh Ha. rewrite Hg in Hh. inversion Hh; subst h.
      rewrite Hnew in Ha. inversion Ha. reflexivity.
    + intros _. rewrite Hg. discriminate.
    + rewrite Ht. intros due c Hin.
      destruct (H4 due c Hin) as (h & a & -> & Ha).
      rewrite (startPressAnimation_started event w s Hb Hs). fields.
      destruct (cancel_keeps_created (growAnimationRef w) w h a Ha) as (a' & Ha' & _).
      exists h, a'. split; [reflexivity |].
      rewrite nth_error_app1; [exact Ha' |].
      apply nth_error_Some. rewrite Ha'. discriminate.
Qed.

Lemma consistent_endPressAnimation w :
  consistent w -> consistent (endPressAnimation w).
Proof.
  intros Hc. destruct (endPressAnimation_refs w) as (_ & _ & Hg & Ha & _ & _).
  destruct (currentTime (growAnimationRef w) w) as [t|] eqn:Ht.
  - destruct (Z_lt_le_dec t MINIMUM_PRESS_MS) as [Hlt | Hle].
    + destruct (endPressAnimation_deferred w t Ht Hlt) as (Hp & Htm).
      destruct Hc as [H1 H2 H3 H4]. split.
      * rewrite Hg, Ha. exact H1.
      * rewrite Hg, Ha. exact H2.
      * rewrite Hg, Hp. exact H3.
      * rewrite Ha, Htm. intros due c Hin. apply in_app_or in Hin.
        destruct Hin as [Hin | [Heq | []]]; [exact (H4 due c Hin) |].
        assert (Hd : due = now w + (MINIMUM_PRESS_MS - t)) by congruence.
        assert (Hcc : c = growAnimationRef w) by congruence.
        subst due c. clear Heq.
        unfold currentTime in Ht. destruct (growAnimationRef w) as [h|]; [| discriminate].
        destruct (nth_error (animations w) h) as [a|] eqn:Hh; [| discriminate].
        exists h, a. split; [reflexivity | exact Hh].
    + destruct (endPressAnimation_immediate w) as (Hp & Htm);
        [rewrite Ht; exact Hle |].
      apply (consistent_ext w); auto.
      * rewrite Hp. discriminate.
      * rewrite Htm. auto.
  - destruct (endPressAnimation_immediate w) as (Hp & Htm); [rewrite Ht; exact I |].
    apply (consistent_ext w); auto.
    + rewrite Hp. discriminate.
    + rewrite Htm. auto.
Qed.

Lemma consistent_setTimeout_touch delay event w :
  consistent w -> consistent (setTimeout delay (AfterTouchDelay event) w).
Proof.
  intros [H1 H2 H3 H4]. split; fields; auto.
  intros due c Hin. apply in_app_or in Hin.
  destruct Hin as [Hin | [Heq | []]]; [exact (H4 due c Hin) | discriminate].
Qed.

Lemma consistent_resume k w :
  consistent w -> consistent (resume k w).
Proof.
  intros Hc. destruct k as [event | animation]; unfold resume.
  - destruct (negb (StateType_eqb (stateRef w) TOUCH_DELAY)); [exact Hc |].
    apply consistent_startPressAnimation. apply (consistent_ext w); auto.
  - destruct (negb (handle_eqb (growAnimationRef w) animation)); [exact Hc |].
    apply (consistent_ext w); auto. discriminate.
Qed.

Lemma consistent_handler disabled c w :
  consistent w -> consistent (handler disabled c w).
Proof.
  intros Hc. destruct c as [e | e | e | e | e |]; simpl;
    unfold onPointerEnter, onPointerLeave, onPointerDown, onPointerUp,
           onPointerCancel, onClick;
    try destruct (negb (shouldReactToEvent disabled w e)); try exact Hc.
  - apply (consistent_ext w); auto.
  - fields. destruct (negb (StateType_eqb (stateRef w) INACTIVE)).
    + apply consistent_endPressAnimation. apply (consistent_ext w); auto.
    + apply (consistent_ext w); auto.
  - destruct (negb (isTouch e)).
    + apply consistent_startPressAnimation. apply (consistent_ext w); auto.
    + apply consistent_setTimeout_touch. apply (consistent_ext w); auto.
  - destruct (StateType_eqb (stateRef w) HOLDING); [apply (consistent_ext w); auto |].
    destruct (StateType_eqb (stateRef w) TOUCH_DELAY); [| exact Hc].
    apply consistent_startPressAnimation. apply (consistent_ext w); auto.
  - apply consistent_endPressAnimation. exact Hc.
  - destruct disabled; [exact Hc |].
    destruct (StateType_eqb (stateRef w) WAITING_FOR_CLICK);
      [apply consistent_endPressAnimation; exact Hc |].
    destruct (StateType_eqb (stateRef w) INACTIVE); [| exact Hc].
    apply consistent_endPressAnimation, consistent_startPressAnimation, Hc.
Qed.

Lemma consistent_exec i w : consistent w -> consistent (exec i w).
Proof.
  intros Hc. destruct i as [d c | dt | n | s sx sy | g t]; simpl.
  - apply consistent_handler, Hc.
  - apply (consistent_ext w); auto.
  - destruct (nth_error (timers w) n) as [[due k]|]; [| exact Hc].
    destruct (due <=? now w); [| exact Hc].
    apply consistent_resume. apply (consistent_ext w); auto.
    fields. intros t. apply In_remove_nth.
  - apply (consistent_ext w); auto.
  - destruct Hc as [H1 H2 H3 H4]. split; fields.
    + destruct (growAnimationRef w); [rewrite update_nth_length; exact H1 |].
      rewrite H1. destruct g; reflexivity.
    + intros h a Hg. rewrite seek_entry.
      destruct (nth_error (animations w) h) as [a0|] eqn:Ha; [| discriminate].
      intros Heq. assert (Hseek : a = if Nat.eqb g h then seek t a0 else a0)
        by (simpl in Heq; congruence).
      rewrite Hseek. pose proof (H2 h a0 Hg Ha) as Hlive.
      destruct (Nat.eqb g h); exact Hlive.
    + exact H3.
    + intros due c Hin. destruct (H4 due c Hin) as (h & a & -> & Ha).
      exists h, (if Nat.eqb g h then seek t a else a). split; [reflexivity |].
      rewrite seek_entry, Ha. reflexivity.
Qed.

Lemma consistent_run inputs : forall w, consistent w -> consistent (run inputs w).
Proof.
  induction inputs as [| i rest IH]; intros w Hc; simpl; [exact Hc |].
  apply IH, consistent_exec, Hc.
Qed.

(** ** When [pressed] changes *)

Lemma handle_eqb_eq a b : handle_eqb a b = true <-> a = b.
Proof.
  destruct a as [x|], b as [y|]; simpl; try (split; congruence).
  rewrite Nat.eqb_eq. split; congruence.
Qed.


(** Right after a press has started, its animation reports 0 ms. *)
Lemma currentTime_after_start event w surface :
  isBrowser w = true -> surfaceRef w = Some surface ->
  currentTime (growAnimationRef (startPressAnimation event w)) (startPressAnimation event w)
  = Some 0.
Proof.
  intros Hb Hs.
  destruct (startPressAnimation_effect event w surface Hb Hs) as (_ & Hg & _ & Hnew & _).
  unfold currentTime. rewrite Hg, Hnew. reflexivity.
Qed.






(** *** While the timeline does not read ahead *)


(** What a press leaves in the store: the animations that were there, with
    their creation and current times, and the new one. *)
Lemma startPressAnimation_entry event w surface h a' :
  isBrowser w = true -> surfaceRef w = Some surface ->
  nth_error (animations (startPressAnimation event w)) h = Some a' ->
  (exists a, nth_error (animations w) h = Some a
             /\ anim_created a' = anim_created a
             /\ anim_currentTime a' = anim_currentTime a)
  \/ (h = List.length (animations w) /\ a' = pressAnimation event surface w).
Proof.
  intros Hb Hs. rewrite (startPressAnimation_started event w surface Hb Hs). fields.
  pose proof (cancel_length (growAnimationRef w) w) as Hlen.
  destruct (Nat.lt_ge_cases h (List.length (animations w))) as [Hlt | Hge].
  - rewrite nth_error_app1 by (rewrite Hlen; exact Hlt). intros Ha'. left.
    destruct (nth_error (animations w) h) as [a|] eqn:Ha.
    + destruct (cancel_keeps_created (growAnimationRef w) w h a Ha) as (a'' & Ha'' & Hcr).
      exists a. split; [reflexivity |]. congruence.
    + apply nth_error_None in Ha. lia.
  - rewrite nth_error_app2 by (rewrite Hlen; exact Hge). rewrite Hlen.
    destruct (h - List.length (animations w))%nat as [| k] eqn:Hk; simpl.
    + intros Ha'. right. split; [lia | congruence].
    + destruct k; discriminate.
Qed.








(** A press that turns [pressed] on installs an animation created at that
    very moment, which reports 0 ms. *)
Lemma exec_press_time i w :
  pressed w = false -> pressed (exec i w) = true ->
  exists h a, growAnimationRef (exec i w) = Some h
              /\ nth_error (animations (exec i w)) h = Some a
              /\ anim_created a = now (exec i w)
              /\ anim_currentTime a = 0.
Proof.
  assert (Hstart : forall event x,
             pressed x = false -> pressed (startPressAnimation event x) = true ->
             exists h a, growAnimationRef (startPressAnimation event x) = Some h
                         /\ nth_error (animations (startPressAnimation event x)) h = Some a
                         /\ anim_created a = now (startPressAnimation event x)
                         /\ anim_currentTime a = 0).
  { intros event x Hx Hon.
    destruct (startPressAnimation_cases event x) as [H | (s & Hb & Hs)]; [congruence |].
    destruct (startPressAnimation_effect event x s Hb Hs) as (_ & Hg & _ & Hnew & _).
    destruct (startPressAnimation_frame event x) as (_ & _ & _ & _ & Hnow & _).
    eexists _, _. split; [exact Hg |]. split; [exact Hnew |]. rewrite Hnow.
    split; reflexivity. }
  assert (Hend : forall x,
             pressed (endPressAnimation x) = true ->
             pressed x = true /\ growAnimationRef (endPressAnimation x) = growAnimationRef x
             /\ animations (endPressAnimation x) = animations x
             /\ now (endPressAnimation x) = now x).
  { intros x Hon. destruct (endPressAnimation_refs x) as (_ & _ & Hg & Ha & Hnow & _).
    repeat split; try assumption.
    destruct (currentTime (growAnimationRef x) x) as [t|] eqn:Ht.
    - destruct (Z_lt_le_dec t MINIMUM_PRESS_MS) as [Hlt | Hle].
      + destruct (endPressAnimation_deferred x t Ht Hlt) as (Hk & _). congruence.
      + destruct (endPressAnimation_immediate x) as (Hk & _); [rewrite Ht; exact Hle |].
        congruence.
    - destruct (endPressAnimation_immediate x) as (Hk & _); [rewrite Ht; exact I |].
      congruence. }
  intros Hp. destruct i as [d c | dt | n | s sx sy | g t]; simpl; try congruence.
  - destruct c as [e | e | e | e | e |]; simpl;
      unfold onPointerEnter, onPointerLeave, onPointerDown, onPointerUp,
             onPointerCancel, onClick;
      try destruct (negb (shouldReactToEvent d w e)); try congruence.
    + fields. congruence.
    + fields. destruct (negb (StateType_eqb (stateRef w) INACTIVE)); fields; [| congruence].
      intros Hon. apply Hend in Hon. destruct Hon as [Hon _].
      change (pressed w = true) in Hon. congruence.
    + destruct (negb (isTouch e)); [apply Hstart; exact Hp | fields; congruence].
    + destruct (StateType_eqb (stateRef w) HOLDING); [fields; congruence |].
      destruct (StateType_eqb (stateRef w) TOUCH_DELAY); [| congruence].
      apply Hstart. exact Hp.
    + intros Hon. apply Hend in Hon. destruct Hon. congruence.
    + destruct d; [congruence |].
      destruct (StateType_eqb (stateRef w) WAITING_FOR_CLICK).
      { intros Hon. apply Hend in Hon. destruct Hon. congruence. }
      destruct (StateType_eqb (stateRef w) INACTIVE); [| congruence].
      intros Hon. apply Hend in Hon. destruct Hon as (Hon & Hg & Ha & Hnow).
      rewrite Hg, Ha, Hnow. apply Hstart; assumption.
  - destruct (nth_error (timers w) n) as [[due k]|]; [| congruence].
    destruct (due <=? now w); [| congruence].
    destruct k as [event | c]; unfold resume; fields.
    + destruct (negb (StateType_eqb (stateRef w) TOUCH_DELAY)); fields; [congruence |].
      apply Hstart. exact Hp.
    + destruct (negb (handle_eqb (growAnimationRef w) c)); fields; congruence.
Qed.

(** ** The store only grows *)

Lemma startPressAnimation_grows event w :
  (List.length (animations w) <= List.length (animations (startPressAnimation event w)))%nat.
Proof.
  destruct (startPressAnimation_cases event w) as [H | (s & Hb & Hs)].
  - rewrite H. apply Nat.le_refl.
  - destruct (startPressAnimation_effect event w s Hb Hs) as (_ & _ & _ & _ & Hlen & _).
    rewrite Hlen. apply Nat.le_succ_diag_r.
Qed.

Lemma endPressAnimation_animations w :
  animations (endPressAnimation w) = animations w.
Proof. apply (endPressAnimation_refs w). Qed.

Lemma exec_grows i w :
  (List.length (animations w) <= List.length (animations (exec i w)))%nat.
Proof.
  destruct i as [d c | dt | n | s sx sy | g t]; simpl; try apply Nat.le_refl.
  - destruct c as [e | e | e | e | e |]; simpl;
      unfold onPointerEnter, onPointerLeave, onPointerDown, onPointerUp,
             onPointerCancel, onClick;
      try destruct (negb (shouldReactToEvent d w e)); try apply Nat.le_refl;
      fields;
      repeat match goal with
        | |- context [if ?b then _ else _] => destruct b
        end;
      rewrite ?endPressAnimation_animations; fields;
      try apply Nat.le_refl;
      match goal with
      | |- (_ <= List.length (animations (startPressAnimation ?ev ?x)))%nat =>
          exact (startPressAnimation_grows ev x)
      end.
  - destruct (nth_error (timers w) n) as [[due k]|]; [| apply Nat.le_refl].
    destruct (due <=? now w); [| apply Nat.le_refl].
    destruct k as [event | c]; unfold resume; fields;
      repeat match goal with
        | |- context [if ?b then _ else _] => destruct b
        end; try apply Nat.le_refl.
    exact (startPressAnimation_grows (Some event) (set_stateRef HOLDING (set_timers _ w))).
  - rewrite update_nth_length. apply Nat.le_refl.
Qed.

Lemma run_grows inputs :
  forall w, (List.length (animations w) <= List.length (animations (run inputs w)))%nat.
Proof.
  induction inputs as [| i rest IH]; intros w; simpl; [apply Nat.le_refl |].
  apply Nat.le_trans with (m := List.length (animations (exec i w)));
    [apply exec_grows | apply IH].
Qed.

(** A release wait whose animation is no longer the current one does
    nothing when it completes. *)
Lemma stale_release_ignored c w :
  growAnimationRef w <> c -> resume (AfterMinimumPress c) w = w.
Proof.
  intros Hne. unfold resume.
  destruct (handle_eqb (growAnimationRef w) c) eqn:Heq; [| reflexivity].
  apply handle_eqb_eq in Heq. contradiction.
Qed.

Lemma current_release_completes c w :
  growAnimationRef w = c -> resume (AfterMinimumPress c) w = setPressed false w.
Proof.
  intros Heq. unfold resume. apply handle_eqb_eq in Heq. rewrite Heq. reflexivity.
Qed.

Lemma superseded_wait_is_stale w w' due c :
  consistent w -> consistent w' ->
  In (due, AfterMinimumPress c) (timers w) ->
  (List.length (animations w) < List.length (animations w'))%nat ->
  growAnimationRef w' <> c.
Proof.
  intros Hc Hc' Hin Hlt Heq.
  destruct (release_waits w Hc due c Hin) as (h & a & -> & Ha).
  pose proof (current_is_last w' Hc') as Hlast. rewrite Heq in Hlast.
  assert (Hh : (h < List.length (animations w))%nat)
    by (apply nth_error_Some; rewrite Ha; discriminate).
  lia.
Qed.

(** ** Timers *)

Lemma remove_nth_last {A} (l : list A) x : remove_nth (List.length l) (l ++ [x]) = l.
Proof. induction l as [| a l IH]; simpl; [reflexivity | rewrite IH; reflexivity]. Qed.

Lemma nth_error_last {A} (l : list A) x : nth_error (l ++ [x]) (List.length l) = Some x.
Proof. induction l as [| a l IH]; simpl; [reflexivity | exact IH]. Qed.

Lemma fire_last l due k w :
  timers w = l ++ [(due, k)] ->
  exec (Fire (List.length l)) w
  = if due <=? now w then resume k (set_timers l w) else w.
Proof.
  intros Ht. simpl. rewrite Ht, nth_error_last, remove_nth_last. reflexivity.
Qed.


(** ** Facts about binary64

    The primitive operations are related to their specification
    ([SpecFloat]) by the library's axioms; what follows is derived from the
    specification. *)

Lemma SFcompare_antisym x y :
  SFcompare y x = option_map CompOpp (SFcompare x y).
Proof.
  destruct x as [sx | sx | | sx mx ex], y as [sy | sy | | sy my ey]; simpl;
    try reflexivity;
    try (destruct sx; reflexivity); try (destruct sy; reflexivity);
    try (destruct sx, sy; reflexivity).
  destruct sx, sy; simpl; try reflexivity;
    rewrite (Z.compare_antisym ex ey); destruct (ex ?= ey); simpl; try reflexivity;
    rewrite (Pos.compare_cont_antisym); simpl; try reflexivity.
  - rewrite CompOpp_involutive. reflexivity.
Qed.

Lemma SFcompare_Eq x y :
  SFcompare x y = Some Eq ->
  x = y \/ exists s1 s2, x = S754_zero s1 /\ y = S754_zero s2.
Proof.
  destruct x as [sx | sx | | sx mx ex], y as [sy | sy | | sy my ey]; simpl;
    try discriminate;
    try (destruct sx; discriminate); try (destruct sy; discriminate).
  - intros _. right. eauto.
  - destruct sx, sy; try discriminate; auto.
  - destruct sx, sy; try discriminate;
      destruct (ex ?= ey) eqn:He; try discriminate;
      apply Z.compare_eq in He; subst ey; intros H.
    + left. f_equal. injection H as H.
      destruct (Pos.compare_cont Eq mx my) eqn:Hc; try discriminate.
      apply Pos.compare_eq in Hc. exact Hc.
    + left. f_equal. injection H as H. apply Pos.compare_eq in H. exact H.
Qed.

Lemma float_of_SF (v : float) (x : spec_float) : Prim2SF v = x -> v = SF2Prim x.
Proof. intros <-. symmetry. apply SF2Prim_Prim2SF. Qed.

Lemma SFcompare_refl x : x <> S754_nan -> SFcompare x x = Some Eq.
Proof.
  destruct x as [s | s | | s m e]; simpl; intros H; try reflexivity.
  - destruct s; reflexivity.
  - contradiction.
  - destruct s; rewrite Z.compare_refl, Pos.compare_cont_refl; reflexivity.
Qed.

Lemma is_nan_spec v : is_nan v = match Prim2SF v with S754_nan => true | _ => false end.
Proof.
  unfold is_nan. rewrite FloatAxioms.eqb_spec. unfold SFeqb.
  destruct (Prim2SF v) eqn:Hv; try (rewrite SFcompare_refl by discriminate; reflexivity).
  reflexivity.
Qed.

Lemma max_comm a b : JsMath.max a b = JsMath.max b a.
Proof.
  unfold JsMath.max. rewrite (orb_comm (is_nan b)).
  destruct (is_nan a || is_nan b)%bool eqn:Hnan; [reflexivity |].
  apply orb_false_elim in Hnan. destruct Hnan as [Ha Hb].
  rewrite is_nan_spec in Ha, Hb.
  rewrite !FloatAxioms.ltb_spec. unfold SFltb. rewrite (SFcompare_antisym (Prim2SF a) (Prim2SF b)).
  destruct (SFcompare (Prim2SF a) (Prim2SF b)) as [[| |]|] eqn:Hc; simpl; try reflexivity.
  - destruct (SFcompare_Eq _ _ Hc) as [Heq | (s1 & s2 & H1 & H2)].
    + apply Prim2SF_inj in Heq. subst b. destruct (get_sign a); reflexivity.
    + apply float_of_SF in H1, H2. subst a b. destruct s1, s2; reflexivity.
  - destruct (Prim2SF a), (Prim2SF b); simpl in Hc; try discriminate.
Qed.

Lemma div_by_zero_not_finite x z s :
  Prim2SF z = S754_zero s -> is_finite (x / z)%float = false.
Proof.
  intros Hz. rewrite (float_of_SF (x / z)%float _ (FloatAxioms.div_spec x z)), Hz.
  destruct (Prim2SF x) as [sx | sx | | sx mx ex]; simpl;
    try reflexivity; destruct sx, s; reflexivity.
Qed.

Lemma floor_of_small v :
  match Prim2SF v with
  | S754_zero _ => True
  | S754_finite false m e => e < 0 /\ Zpos m < 2 ^ (- e)
  | _ => False
  end ->
  JsMath.floor v = zero \/ JsMath.floor v = neg_zero.
Proof.
  unfold JsMath.floor. destruct (Prim2SF v) as [s | s | | s m e] eqn:Hv; try contradiction.
  - intros _. apply float_of_SF in Hv. subst v. destruct s; simpl; auto.
  - destruct s; [contradiction |]. intros [He Hm].
    apply Z.leb_gt in He as Hb. rewrite Hb.
    rewrite Z.shiftr_div_pow2 by lia. rewrite Z.div_small by lia.
    left. reflexivity.
Qed.

(** The number of binary digits of a mantissa. *)
Lemma digits2_pos_bounds p :
  2 ^ (Zpos (digits2_pos p) - 1) <= Zpos p < 2 ^ Zpos (digits2_pos p).
Proof.
  induction p as [p IH | p IH |]; simpl digits2_pos.
  - rewrite Pos2Z.inj_succ. replace (Z.succ (Zpos (digits2_pos p)) - 1)
      with (Z.succ (Zpos (digits2_pos p) - 1)) by lia.
    rewrite !Z.pow_succ_r by lia. lia.
  - rewrite Pos2Z.inj_succ. replace (Z.succ (Zpos (digits2_pos p)) - 1)
      with (Z.succ (Zpos (digits2_pos p) - 1)) by lia.
    rewrite !Z.pow_succ_r by lia. lia.
  - simpl. lia.
Qed.

Lemma Zdigits2_le m j : 0 < m -> 0 <= j -> m < 2 ^ j -> Zdigits2 m <= j.
Proof.
  intros Hm Hj Hlt. destruct m as [| p | p]; try lia. simpl.
  destruct (digits2_pos_bounds p) as [Hlo _].
  destruct (Z_le_gt_dec (Zpos (digits2_pos p)) j) as [H | H]; [exact H |].
  exfalso. assert (2 ^ j <= 2 ^ (Zpos (digits2_pos p) - 1))
    by (apply Z.pow_le_mono_r; lia). lia.
Qed.

(** Shifting a mantissa right, as rounding does. *)
Lemma shr_1_m r : 0 <= shr_m r -> shr_m (shr_1 r) = Z.shiftr (shr_m r) 1.
Proof.
  rewrite <- Z.div2_spec. destruct r as [m rb sb]. simpl.
  destruct m as [| [p | p |] | p]; simpl; intros H; try reflexivity; lia.
Qed.

Lemma iter_shr_1_m p :
  forall r, 0 <= shr_m r -> shr_m (iter_pos shr_1 p r) = Z.shiftr (shr_m r) (Zpos p).
Proof.
  induction p as [p IH | p IH |]; intros r Hr; simpl iter_pos.
  - assert (H1 : 0 <= shr_m (shr_1 r))
      by (rewrite shr_1_m by exact Hr; apply Z.shiftr_nonneg; exact Hr).
    assert (H2 : 0 <= shr_m (iter_pos shr_1 p (shr_1 r)))
      by (rewrite IH by exact H1; apply Z.shiftr_nonneg; exact H1).
    rewrite IH by exact H2. rewrite IH by exact H1. rewrite shr_1_m by exact Hr.
    rewrite !Z.shiftr_shiftr by lia. f_equal. lia.
  - assert (H1 : 0 <= shr_m (iter_pos shr_1 p r))
      by (rewrite IH by exact Hr; apply Z.shiftr_nonneg; exact Hr).
    rewrite IH by exact H1. rewrite IH by exact Hr.
    rewrite Z.shiftr_shiftr by lia. f_equal. lia.
  - apply shr_1_m. exact Hr.
Qed.

Lemma shr_record_of_loc_m m l : shr_m (shr_record_of_loc m l) = m.
Proof. destruct l as [| []]; reflexivity. Qed.

Lemma shr_value m l e n :
  0 <= m ->
  shr_m (fst (shr (shr_record_of_loc m l) e n)) = m / 2 ^ Z.max 0 n
  /\ snd (shr (shr_record_of_loc m l) e n) = e + Z.max 0 n.
Proof.
  intros Hm. destruct n as [| p | p]; simpl shr; simpl fst; simpl snd.
  - rewrite shr_record_of_loc_m. simpl. rewrite Z.div_1_r. split; lia.
  - rewrite iter_shr_1_m by (rewrite shr_record_of_loc_m; exact Hm).
    rewrite shr_record_of_loc_m, Z.shiftr_div_pow2 by lia.
    rewrite Z.max_r by lia. split; reflexivity.
  - rewrite shr_record_of_loc_m. rewrite Z.max_l by lia. simpl. rewrite Z.div_1_r.
    split; lia.
Qed.

Lemma round_nearest_even_bounds m l :
  m <= round_nearest_even m l <= m + 1.
Proof.
  destruct l as [| []]; simpl; try lia. destruct (Z.even m); lia.
Qed.

(** Rounding a positive product that stays far enough below 1 gives a value
    below 1: a zero, or a mantissa shorter than its (negative) exponent. *)
Lemma binary_round_aux_below_one sx P E :
  0 < P ->
  P + 2 ^ Z.max 0 (fexp prec emax (Zdigits2 P + E) - E) < 2 ^ (- E) ->
  match binary_round_aux prec emax sx P E loc_Exact with
  | S754_zero _ => True
  | S754_finite s m e => s = sx /\ e < 0 /\ Zpos m < 2 ^ (- e)
  | _ => False
  end.
Proof.
  intros HP Hsum. unfold binary_round_aux, shr_fexp.
  set (n := fexp prec emax (Zdigits2 P + E) - E) in *.
  destruct (shr_value P loc_Exact E n) as [Hm1 He1]; [lia |].
  destruct (shr (shr_record_of_loc P loc_Exact) E n) as [r1 e1].
  simpl fst in Hm1. simpl snd in He1.
  pose proof (round_nearest_even_bounds (shr_m r1) (loc_of_shr_record r1)) as Hrnd.
  set (m2 := round_nearest_even (shr_m r1) (loc_of_shr_record r1)) in *.
  set (n2 := fexp prec emax (Zdigits2 m2 + e1) - e1).
  assert (Hpn : 0 < 2 ^ Z.max 0 n) by (apply Z.pow_pos_nonneg; lia).
  assert (Hpn2 : 0 < 2 ^ Z.max 0 n2) by (apply Z.pow_pos_nonneg; lia).
  assert (Hm1' : 0 <= shr_m r1) by (rewrite Hm1; apply Z.div_pos; lia).
  destruct (shr_value m2 loc_Exact e1 n2) as [Hm3 He3]; [lia |].
  destruct (shr (shr_record_of_loc m2 loc_Exact) e1 n2) as [r2 e2].
  simpl fst in Hm3. simpl snd in He3.
  assert (H1 : 2 ^ Z.max 0 n * shr_m r1 <= P)
    by (rewrite Hm1; apply Z.mul_div_le; exact Hpn).
  assert (H3 : 2 ^ Z.max 0 n2 * shr_m r2 <= m2)
    by (rewrite Hm3; apply Z.mul_div_le; exact Hpn2).
  assert (Hm3' : 0 <= shr_m r2) by (rewrite Hm3; apply Z.div_pos; lia).
  assert (Hall : shr_m r2 * 2 ^ (Z.max 0 n + Z.max 0 n2) < 2 ^ (- E)).
  { rewrite Z.pow_add_r by lia.
    assert (Hstep : shr_m r2 * 2 ^ Z.max 0 n2 * 2 ^ Z.max 0 n
                    <= (shr_m r1 + 1) * 2 ^ Z.max 0 n)
      by (apply Z.mul_le_mono_nonneg_r; lia).
    lia. }
  destruct (shr_m r2) as [| m | m] eqn:Hr2; [exact I | | lia].
  assert (Hexp : Z.max 0 n + Z.max 0 n2 < - E).
  { apply (Z.pow_lt_mono_r_iff 2); [lia | |].
    - destruct (Z_lt_le_dec (- E) 0) as [Hneg | Hnn]; [| exact Hnn].
      rewrite (Z.pow_neg_r 2 (- E)) in Hall by exact Hneg. lia.
    - apply Z.le_lt_trans with (m := Zpos m * 2 ^ (Z.max 0 n + Z.max 0 n2));
        [| exact Hall].
      assert (0 < 2 ^ (Z.max 0 n + Z.max 0 n2)) by (apply Z.pow_pos_nonneg; lia).
      nia. }
  assert (He2 : e2 < 0) by lia.
  replace (e2 <=? emax - prec) with true
    by (symmetry; apply Z.leb_le; unfold emax, prec; lia).
  split; [reflexivity | split; [exact He2 |]].
  apply (Z.mul_lt_mono_pos_r (2 ^ (Z.max 0 n + Z.max 0 n2)));
    [apply Z.pow_pos_nonneg; lia |].
  rewrite <- Z.pow_add_r by lia.
  replace (- e2 + (Z.max 0 n + Z.max 0 n2)) with (- E) by lia. exact Hall.
Qed.

Lemma bounded_canonical m e :
  bounded prec emax m e = true -> Zpos m < 2 ^ 53 /\ -1074 <= e.
Proof.
  unfold bounded, canonical_mantissa, fexp, SpecFloat.emin, prec, emax.
  intros H. apply andb_prop in H. destruct H as [H _]. apply Z.eqb_eq in H.
  destruct (digits2_pos_bounds m) as [_ Hhi].
  assert (Hd : Zpos (digits2_pos m) <= 53) by lia.
  split; [| lia].
  apply Z.lt_le_trans with (m := 2 ^ Zpos (digits2_pos m)); [exact Hhi |].
  apply Z.pow_le_mono_r; lia.
Qed.

(** Every value in [0, 5) times [INITIAL_ORIGIN_SCALE] rounds to a value
    below 1. *)
Lemma scaled_below_one m :
  (0 <=? m)%float = true -> (m <? 5)%float = true ->
  match Prim2SF (m * INITIAL_ORIGIN_SCALE)%float with
  | S754_zero _ => True
  | S754_finite false mm e => e < 0 /\ Zpos mm < 2 ^ (- e)
  | _ => False
  end.
Proof.
  rewrite FloatAxioms.leb_spec, FloatAxioms.ltb_spec, FloatAxioms.mul_spec.
  change (Prim2SF 0%float) with (S754_zero false).
  change (Prim2SF 5%float) with (S754_finite false 5629499534213120 (-50)).
  change (Prim2SF INITIAL_ORIGIN_SCALE) with (S754_finite false 7205759403792794 (-55)).
  pose proof (Prim2SF_valid m) as Hvalid.
  destruct (Prim2SF m) as [s | s | | s mx ex]; unfold SFleb, SFltb; cbn [SFcompare].
  - intros _ _. exact I.
  - destruct s; discriminate.
  - discriminate.
  - destruct s; [discriminate |]. intros _ Hlt.
    simpl in Hvalid. apply bounded_canonical in Hvalid. destruct Hvalid as [Hmx Hex].
    assert (Hrange : ex < -50 \/ (ex = -50 /\ Zpos mx < 5629499534213120)).
    { destruct (ex ?= -50) eqn:Hc.
      - apply Z.compare_eq in Hc. right. split; [exact Hc |].
        destruct (Pos.compare_cont Eq mx 5629499534213120) eqn:Hm; try discriminate.
        exact Hm.
      - left. apply Z.compare_lt_iff in Hc. exact Hc.
      - discriminate. }
    clear Hlt. unfold SF64mul, SFmul. simpl xorb.
    pose proof (binary_round_aux_below_one false
                  (Zpos (mx * 7205759403792794)) (ex + -55)) as Hround.
    set (P := Zpos (mx * 7205759403792794)) in *.
    set (E := ex + -55) in *.
    assert (HP : P = Zpos mx * 7205759403792794) by (unfold P; lia).
    set (k := -50 - ex).
    assert (Hk : 0 <= k) by lia.
    assert (Hu : 0 < 2 ^ k) by (apply Z.pow_pos_nonneg; lia).
    assert (Hu2 : 1 <= k -> 2 <= 2 ^ k).
    { intros Hk1. change 2 with (2 ^ 1) at 1. apply Z.pow_le_mono_r; lia. }
    assert (HE : 2 ^ (- E) = 2 ^ 105 * 2 ^ k).
    { rewrite <- Z.pow_add_r by lia. f_equal. lia. }
    assert (Hsum : P + 2 ^ 52 * 2 ^ k < 2 ^ 105 * 2 ^ k).
    { change (2 ^ 52) with 4503599627370496.
      change (2 ^ 105) with 40564819207303340847894502572032.
      change (2 ^ 53) with 9007199254740992 in Hmx.
      destruct Hrange as [Hr | [Hr Hm]].
      - assert (2 <= 2 ^ k) by (apply Hu2; lia). lia.
      - assert (2 ^ k = 1) by (replace k with 0 by lia; reflexivity). lia. }
    assert (Hdig : Zdigits2 P <= 105 + k).
    { apply Zdigits2_le; [lia | lia |]. rewrite Z.pow_add_r by lia.
      assert (0 < 2 ^ 52 * 2 ^ k) by lia. lia. }
    assert (Hn : Z.max 0 (fexp prec emax (Zdigits2 P + E) - E) <= 52 + k).
    { unfold fexp, SpecFloat.emin, prec, emax. lia. }
    assert (Hfits : P + 2 ^ Z.max 0 (fexp prec emax (Zdigits2 P + E) - E) < 2 ^ (- E)).
    { rewrite HE.
      apply Z.le_lt_trans with (m := P + 2 ^ 52 * 2 ^ k); [| exact Hsum].
      apply Z.add_le_mono_l. rewrite <- Z.pow_add_r by lia.
      apply Z.pow_le_mono_r; lia. }
    assert (HP0 : 0 < P) by lia.
    specialize (Hround HP0 Hfits).
    destruct (binary_round_aux prec emax false P E loc_Exact) as [s | s | | s mm e];
      try exact Hround.
    destruct Hround as (-> & He & Hmm). split; assumption.
Qed.

(** * The properties of the specification *)




(** C2. Exclusive animation ownership and stale releases. In every state of
    a run, a press that starts (in a browser, with a surface) cancels the
    animation that was current and installs a handle no animation had
    before; the completion of a release wait changes nothing unless the
    handle it captured is still the current one, and then sets [pressed] to
    false; and once a later step has started a newer press animation, the
    completion of a wait that was pending before it changes nothing,
    whatever happened in between. *)
Theorem exclusive_animation_ownership :
  forall browser surface sx sy inputs,
    let w := run inputs (mount browser surface sx sy) in
    (forall event s, isBrowser w = true -> surfaceRef w = Some s ->
       let w' := startPressAnimation event w in
       (forall h, growAnimationRef w = Some h ->
                  exists a, nth_error (animations w) h = Some a
                            /\ nth_error (animations w') h = Some (cancel_animation a))
       /\ growAnimationRef w' = Some (List.length (animations w))
       /\ growAnimationRef w' <> growAnimationRef w
       /\ nth_error (animations w) (List.length (animations w)) = None
       /\ nth_error (animations w') (List.length (animations w))
          = Some (pressAnimation event s w))
    /\ (forall c,
          (growAnimationRef w <> c -> resume (AfterMinimumPress c) w = w)
          /\ (growAnimationRef w = c -> resume (AfterMinimumPress c) w = setPressed false w))
    /\ (forall due c i more,
          In (due, AfterMinimumPress c) (timers w) ->
          (List.length (animations w) < List.length (animations (exec i w)))%nat ->
          resume (AfterMinimumPress c) (run more (exec i w)) = run more (exec i w)).
Proof.
  intros browser surface sx sy inputs w.
  assert (Hc : consistent w) by (apply consistent_run, consistent_mount).
  split; [| split].
  - intros event s Hb Hs w'.
    destruct (startPressAnimation_effect event w s Hb Hs)
      as (_ & Hg & Hfresh & Hnew & _ & Hcancel).
    split; [| split; [exact Hg | split; [| split; assumption]]].
    + intros h Hh. pose proof (current_is_last w Hc) as Hlast. rewrite Hh in Hlast.
      destruct (nth_error (animations w) h) as [a|] eqn:Ha.
      * exists a. split; [reflexivity | exact (Hcancel h a Hh Ha)].
      * apply nth_error_None in Ha. lia.
    + unfold w'. rewrite Hg. intros Heq.
      pose proof (current_is_last w Hc) as Hlast. rewrite <- Heq in Hlast. lia.
  - intros c. split; [apply stale_release_ignored | apply current_release_completes].
  - intros due c i more Hin Hlt. apply stale_release_ignored.
    apply (superseded_wait_is_stale w _ due c Hc); [| exact Hin |].
    + apply consistent_run, consistent_exec, Hc.
    + apply Nat.lt_le_trans with (m := List.length (animations (exec i w)));
        [exact Hlt | apply run_grows].
Qed.

Lemma exclusive_animation_ownership_witness :
  In (225, AfterMinimumPress (Some 0%nat)) (timers (run demo_released demo_mount))
  /\ (List.length (animations (run demo_released demo_mount))
      < List.length (animations (exec demo_second_press (run demo_released demo_mount))))%nat
  /\ resume (AfterMinimumPress (Some 0%nat))
            (run [Tick 210] (exec demo_second_press (run demo_released demo_mount)))
     = run [Tick 210] (exec demo_second_press (run demo_released demo_mount))
  /\ pressed (run [Tick 210; Fire 0]
                  (exec demo_second_press (run demo_released demo_mount))) = true.
Proof.
  pose proof (exclusive_animation_ownership true (Some demo_surface) 0%float 0%float
                demo_released) as H.
  cbv zeta in H. fold demo_mount in H. destruct H as (_ & _ & H).
  assert (Hin : In (225, AfterMinimumPress (Some 0%nat))
                   (timers (run demo_released demo_mount)))
    by (vm_compute; left; reflexivity).
  assert (Hlt : (List.length (animations (run demo_released demo_mount))
                 < List.length (animations (exec demo_second_press
                                              (run demo_released demo_mount))))%nat)
    by (vm_compute; apply Nat.lt_succ_diag_r).
  split; [exact Hin | split; [exact Hlt | split]].
  - exact (H 225 (Some 0%nat) demo_second_press [Tick 210] Hin Hlt).
  - vm_compute. reflexivity.
Defined.

(** C3. Event admissibility and single-pointer ownership.
    [shouldReactToEvent] returns false exactly when the hook is disabled, or
    the event is not from the primary pointer, or an origin event with a
    different [pointerId] is tracked, or the event is a hover event from a
    touch pointer, or it is another event that is neither from a touch
    pointer nor has [buttons === 1]. A rejected event leaves the whole state
    as it was in each of the five pointer handlers; in particular every
    event of a pointer B is ignored while the origin event of a pointer A
    with another [pointerId] is tracked. *)
Theorem event_admissibility :
  forall disabled w e,
    (shouldReactToEvent disabled w e = false <->
     disabled = true
     \/ isPrimary e = false
     \/ (exists origin, rippleStartEventRef w = Some origin
                        /\ pointerId origin <> pointerId e)
     \/ ((type e = "pointerenter"%string \/ type e = "pointerleave"%string)
         /\ pointerType e = "touch"%string)
     \/ (~ (type e = "pointerenter"%string \/ type e = "pointerleave"%string)
         /\ pointerType e <> "touch"%string /\ buttons e <> 1))
    /\ (shouldReactToEvent disabled w e = false ->
        onPointerEnter disabled e w = w
        /\ onPointerLeave disabled e w = w
        /\ onPointerDown disabled e w = w
        /\ onPointerUp disabled e w = w
        /\ onPointerCancel disabled e w = w)
    /\ (forall a, rippleStartEventRef w = Some a -> pointerId e <> pointerId a ->
        onPointerEnter disabled e w = w
        /\ onPointerLeave disabled e w = w
        /\ onPointerDown disabled e w = w
        /\ onPointerUp disabled e w = w
        /\ onPointerCancel disabled e w = w).
Proof.
  intros disabled w e.
  assert (Hign : shouldReactToEvent disabled w e = false ->
                 onPointerEnter disabled e w = w
                 /\ onPointerLeave disabled e w = w
                 /\ onPointerDown disabled e w = w
                 /\ onPointerUp disabled e w = w
                 /\ onPointerCancel disabled e w = w).
  { intros Hrej.
    pose proof (rejected_event_ignored disabled w e Hrej) as H.
    repeat split.
    - apply (H (PointerEnter e)). simpl. tauto.
    - apply (H (PointerLeave e)). simpl. tauto.
    - apply (H (PointerDown e)). simpl. tauto.
    - apply (H (PointerUp e)). simpl. tauto.
    - apply (H (PointerCancel e)). simpl. tauto. }
  split; [apply shouldReactToEvent_false_iff | split; [exact Hign |]].
  intros a Ha Hne. apply Hign. apply shouldReactToEvent_false_iff.
  right. right. left. exists a. split; [exact Ha | congruence].
Qed.

Lemma event_admissibility_witness :
  rippleStartEventRef demo_tracked = Some demo_touch_down
  /\ onPointerDown false (demo_event "pointerdown" 2 "mouse" 1) demo_tracked = demo_tracked
  /\ onPointerCancel false (demo_event "pointercancel" 2 "mouse" 1) demo_tracked
     = demo_tracked.
Proof.
  assert (Ha : rippleStartEventRef demo_tracked = Some demo_touch_down)
    by (vm_compute; reflexivity).
  split; [exact Ha | split].
  - apply (proj2 (proj2 (event_admissibility false demo_tracked
                           (demo_event "pointerdown" 2 "mouse" 1)))
             demo_touch_down Ha).
    vm_compute. discriminate.
  - apply (proj2 (proj2 (event_admissibility false demo_tracked
                           (demo_event "pointercancel" 2 "mouse" 1)))
             demo_touch_down Ha).
    vm_compute. discriminate.
Defined.

(** C7. Hover exclusion for touch. For a [pointerenter] or [pointerleave]
    event whose [pointerType] is ['touch'], [onPointerEnter] and
    [onPointerLeave] return the state they were given, so [hovered] does not
    change. *)
Theorem touch_never_hovers :
  forall disabled w e,
    type e = "pointerenter"%string \/ type e = "pointerleave"%string ->
    pointerType e = "touch"%string ->
    shouldReactToEvent disabled w e = false
    /\ onPointerEnter disabled e w = w
    /\ onPointerLeave disabled e w = w
    /\ hovered (onPointerEnter disabled e w) = hovered w
    /\ hovered (onPointerLeave disabled e w) = hovered w.
Proof.
  intros disabled w e Hty Htouch.
  assert (Hrej : shouldReactToEvent disabled w e = false).
  { apply shouldReactToEvent_false_iff. right. right. right. left.
    split; assumption. }
  unfold onPointerEnter, onPointerLeave. rewrite Hrej. simpl. auto.
Qed.

Lemma touch_never_hovers_witness :
  hovered (onPointerEnter false (demo_event "pointerenter" 1 "touch" 0) demo_mount) = false
  /\ hovered (onPointerEnter false (demo_event "pointerenter" 1 "mouse" 0) demo_mount) = true.
Proof.
  split.
  - destruct (touch_never_hovers false demo_mount (demo_event "pointerenter" 1 "touch" 0))
      as (_ & _ & _ & H & _).
    + left. reflexivity.
    + reflexivity.
    + rewrite H. reflexivity.
  - vm_compute. reflexivity.
Defined.

(** C8. Disabled short-circuit. From the first render on, after any
    sequence of handler calls that all come from renders with
    [disabled = true], interleaved with any passing of time, timer firings
    and layout changes, [hovered] and [pressed] are false. *)
Theorem disabled_short_circuit :
  forall browser surface sx sy inputs,
    (forall d c, In (Call d c) inputs -> d = true) ->
    hovered (run inputs (mount browser surface sx sy)) = false
    /\ pressed (run inputs (mount browser surface sx sy)) = false.
Proof.
  intros browser surface sx sy inputs Hd.
  destruct (run_quiet inputs (mount browser surface sx sy) Hd) as (Hh & Hp & _).
  - repeat split; reflexivity.
  - split; assumption.
Qed.

Lemma disabled_short_circuit_witness :
  hovered (run demo_disabled_inputs demo_mount) = false
  /\ pressed (run demo_disabled_inputs demo_mount) = false.
Proof.
  apply (disabled_short_circuit true (Some demo_surface) 0%float 0%float
           demo_disabled_inputs).
  intros d c Hin. unfold demo_disabled_inputs in Hin. simpl in Hin.
  repeat (destruct Hin as [Hin | Hin]; [congruence |]). contradiction.
Defined.

(** C10. Session ownership is released when the release starts.
    [endPressAnimation] returns with the origin event cleared and the phase
    INACTIVE whether or not it scheduled the minimum-press wait; in the state
    it returns, a [pointerdown] of the primary pointer that is a touch or
    has [buttons === 1] is accepted whatever its [pointerId], and becomes the
    new origin event; and when the wait is scheduled, [pressed] is what it
    was and only the wait will clear it. *)
Theorem release_frees_ownership :
  forall w,
    rippleStartEventRef (endPressAnimation w) = None
    /\ stateRef (endPressAnimation w) = INACTIVE
    /\ (forall e, isPrimary e = true -> type e = "pointerdown"%string ->
                  pointerType e = "touch"%string \/ buttons e = 1 ->
                  shouldReactToEvent false (endPressAnimation w) e = true
                  /\ rippleStartEventRef (onPointerDown false e (endPressAnimation w))
                     = Some e)
    /\ (forall t, currentTime (growAnimationRef w) w = Some t -> t < MINIMUM_PRESS_MS ->
                  pressed (endPressAnimation w) = pressed w
                  /\ timers (endPressAnimation w)
                     = timers w ++ [(now w + (MINIMUM_PRESS_MS - t),
                                     AfterMinimumPress (growAnimationRef w))]).
Proof.
  intros w. destruct (endPressAnimation_refs w) as (Ho & Hs & _).
  split; [exact Ho | split; [exact Hs | split]].
  - intros e Hprim Hty Hadm.
    assert (Hok : shouldReactToEvent false (endPressAnimation w) e = true).
    { destruct (shouldReactToEvent false (endPressAnimation w) e) eqn:Hr; [reflexivity |].
      apply shouldReactToEvent_false_iff in Hr.
      destruct Hr as [Hr | [Hr | [(o & Hr & _) | [([Hr | Hr] & _) | (_ & Hnt & Hnb)]]]];
        try congruence.
      destruct Hadm; contradiction. }
    split; [exact Hok |].
    unfold onPointerDown. rewrite Hok. fields.
    destruct (negb (isTouch e)); fields.
    + apply (startPressAnimation_frame (Some e)
               (set_stateRef WAITING_FOR_CLICK
                  (set_rippleStartEventRef (Some e) (endPressAnimation w)))).
    + reflexivity.
  - apply endPressAnimation_deferred.
Qed.

Lemma release_frees_ownership_witness :
  pressed (endPressAnimation (run [Call false (PointerDown (demo_event "pointerdown" 1 "mouse" 1)); Tick 10] demo_mount)) = true
  /\ shouldReactToEvent false
       (endPressAnimation (run [Call false (PointerDown (demo_event "pointerdown" 1 "mouse" 1)); Tick 10] demo_mount))
       (demo_event "pointerdown" 7 "mouse" 1) = true.
Proof.
  destruct (release_frees_ownership
              (run [Call false (PointerDown (demo_event "pointerdown" 1 "mouse" 1)); Tick 10]
                   demo_mount)) as (_ & _ & Hdown & Hwait).
  split.
  - destruct (Hwait 0) as (Hp & _).
    + vm_compute. reflexivity.
    + reflexivity.
    + rewrite Hp. vm_compute. reflexivity.
  - apply Hdown.
    + reflexivity.
    + reflexivity.
    + right. reflexivity.
Defined.

(** C5. Touch-delay release. An admissible touch [pointerdown] stores the
    event, puts the phase in TOUCH_DELAY and schedules the 150 ms delay,
    without touching [pressed] or the animations. If an admissible
    [pointerup] follows while the phase is still TOUCH_DELAY (the delay has
    not completed), [onPointerUp] sets the phase to WAITING_FOR_CLICK and
    starts the press animation with the stored [pointerdown] event: in a
    browser with a surface [pressed] becomes true and a new animation is
    created at that moment, translated from the coordinates of the
    [pointerdown] event. If instead the delay completes with the phase still
    TOUCH_DELAY, which cannot happen before 150 ms, the phase becomes
    HOLDING and the press animation starts then, again from the
    [pointerdown] event. *)
Theorem touch_delay_release :
  forall w down up dt surface,
    shouldReactToEvent false w down = true ->
    pointerType down = "touch"%string ->
    isBrowser w = true -> surfaceRef w = Some surface ->
    let w1 := onPointerDown false down w in
    let origin :=
      {| pt_x := (pageX down - (scrollX w + rect_left surface)
                  - initialSize (rippleSize surface) / 2)%float;
         pt_y := (pageY down - (scrollY w + rect_top surface)
                  - initialSize (rippleSize surface) / 2)%float |} in
    shouldReactToEvent false (exec (Tick dt) w1) up = true ->
    (stateRef w1 = TOUCH_DELAY
     /\ rippleStartEventRef w1 = Some down
     /\ timers w1 = timers w ++ [(now w + TOUCH_DELAY_MS, AfterTouchDelay down)]
     /\ pressed w1 = pressed w
     /\ animations w1 = animations w)
    /\ (let w2 := onPointerUp false up (exec (Tick dt) w1) in
        stateRef w2 = WAITING_FOR_CLICK
        /\ pressed w2 = true
        /\ growAnimationRef w2 = Some (List.length (animations w))
        /\ exists a, nth_error (animations w2) (List.length (animations w)) = Some a
                     /\ anim_created a = now w + Z.max 0 dt
                     /\ anim_cancelled a = false
                     /\ kf_translateStart (anim_keyframes a) = origin)
    /\ (forall early, early < TOUCH_DELAY_MS ->
        exec (Fire (List.length (timers w))) (exec (Tick early) w1) = exec (Tick early) w1)
    /\ (let w3 := run [Tick TOUCH_DELAY_MS; Fire (List.length (timers w))] w1 in
        stateRef w3 = HOLDING
        /\ pressed w3 = true
        /\ growAnimationRef w3 = Some (List.length (animations w))
        /\ exists a, nth_error (animations w3) (List.length (animations w)) = Some a
                     /\ anim_created a = now w + TOUCH_DELAY_MS
                     /\ anim_cancelled a = false
                     /\ kf_translateStart (anim_keyframes a) = origin).
Proof.
  intros w down up dt surface Hok Htouch Hb Hs w1 origin Hup.
  assert (Hw1 : w1 = setTimeout TOUCH_DELAY_MS (AfterTouchDelay down)
                       (set_stateRef TOUCH_DELAY
                          (set_rippleStartEventRef (Some down) w))).
  { unfold w1, onPointerDown. rewrite Hok.
    apply isTouch_true in Htouch. rewrite Htouch. reflexivity. }
  assert (Htm : timers w1 = timers w ++ [(now w + TOUCH_DELAY_MS, AfterTouchDelay down)]).
  { rewrite Hw1. unfold setTimeout. fields. reflexivity. }
  assert (Hstart : forall x,
             isBrowser x = true -> surfaceRef x = Some surface ->
             scrollX x = scrollX w -> scrollY x = scrollY w ->
             animations x = animations w ->
             let x' := startPressAnimation (Some down) x in
             stateRef x' = stateRef x
             /\ pressed x' = true
             /\ growAnimationRef x' = Some (List.length (animations w))
             /\ exists a, nth_error (animations x') (List.length (animations w)) = Some a
                          /\ anim_created a = now x
                          /\ anim_cancelled a = false
                          /\ kf_translateStart (anim_keyframes a) = origin).
  { intros x Hbx Hsx Hsxx Hsyx Hax x'.
    destruct (startPressAnimation_effect (Some down) x surface Hbx Hsx)
      as (Hp & Hg & _ & Hnew & _).
    destruct (startPressAnimation_frame (Some down) x) as (_ & Hst & _).
    rewrite Hax in Hg, Hnew.
    split; [exact Hst | split; [exact Hp | split; [exact Hg |]]].
    exists (pressAnimation (Some down) surface x).
    split; [exact Hnew | split; [reflexivity | split; [reflexivity |]]].
    unfold pressAnimation, getTranslationCoordinates, getNormalizedPointerEventCoords.
    fields. rewrite Hbx, Hsxx, Hsyx. reflexivity. }
  assert (Hdue : forall d,
             exec (Fire (List.length (timers w))) (exec (Tick d) w1)
             = if now w + TOUCH_DELAY_MS <=? now w + Z.max 0 d
               then resume (AfterTouchDelay down)
                      (set_timers (timers w) (exec (Tick d) w1))
               else exec (Tick d) w1).
  { intros d.
    rewrite (fire_last (timers w) (now w + TOUCH_DELAY_MS) (AfterTouchDelay down))
      by (simpl; exact Htm).
    rewrite Hw1. reflexivity. }
  split; [| split; [| split]].
  - rewrite Hw1. unfold setTimeout. fields. repeat split; reflexivity.
  - intros w2.
    assert (Hw2 : w2 = startPressAnimation (Some down)
                         (set_stateRef WAITING_FOR_CLICK (exec (Tick dt) w1))).
    { unfold w2, onPointerUp. rewrite Hup. rewrite Hw1. reflexivity. }
    rewrite Hw2.
    destruct (Hstart (set_stateRef WAITING_FOR_CLICK (exec (Tick dt) w1)))
      as (Hst & Hrest); try (rewrite Hw1; assumption || reflexivity).
    split; [exact Hst |]. rewrite Hw1 in Hrest |- *. exact Hrest.
  - intros early Hearly. rewrite Hdue.
    replace (now w + TOUCH_DELAY_MS <=? now w + Z.max 0 early) with false; [reflexivity |].
    symmetry. apply Z.leb_gt. unfold TOUCH_DELAY_MS in *. lia.
  - intros w3. unfold w3.
    change (run [Tick TOUCH_DELAY_MS; Fire (List.length (timers w))] w1)
      with (exec (Fire (List.length (timers w))) (exec (Tick TOUCH_DELAY_MS) w1)).
    rewrite Hdue.
    replace (now w + TOUCH_DELAY_MS <=? now w + Z.max 0 TOUCH_DELAY_MS) with true
      by (symmetry; apply Z.leb_le; unfold TOUCH_DELAY_MS; lia).
    assert (Hres : resume (AfterTouchDelay down)
                     (set_timers (timers w) (exec (Tick TOUCH_DELAY_MS) w1))
                   = startPressAnimation (Some down)
                       (set_stateRef HOLDING
                          (set_timers (timers w) (exec (Tick TOUCH_DELAY_MS) w1)))).
    { rewrite Hw1. reflexivity. }
    rewrite Hres.
    destruct (Hstart (set_stateRef HOLDING
                        (set_timers (timers w) (exec (Tick TOUCH_DELAY_MS) w1))))
      as (Hst & Hrest); try (rewrite Hw1; assumption || reflexivity).
    split; [exact Hst |]. rewrite Hw1 in Hrest |- *. exact Hrest.
Qed.

Lemma touch_delay_release_witness :
  stateRef (onPointerUp false (demo_event "pointerup" 1 "touch" 0)
              (exec (Tick 40) (onPointerDown false demo_touch_down demo_mount)))
  = WAITING_FOR_CLICK
  /\ pressed (onPointerUp false (demo_event "pointerup" 1 "touch" 0)
                (exec (Tick 40) (onPointerDown false demo_touch_down demo_mount)))
     = true
  /\ stateRef (run [Tick TOUCH_DELAY_MS; Fire 0]
                  (onPointerDown false demo_touch_down demo_mount)) = HOLDING.
Proof.
  destruct (touch_delay_release demo_mount demo_touch_down
              (demo_event "pointerup" 1 "touch" 0) 40 demo_surface)
    as (_ & (Hst & Hp & _) & _ & (Hhold & _));
    try (vm_compute; reflexivity).
  split; [exact Hst | split; [exact Hp | exact Hhold]].
Defined.

(** C6. Synthetic click. [onClick] on an enabled hook whose phase is
    INACTIVE (in a browser, with a surface) starts exactly one press
    animation, with no origin event, so its start translation is the centre
    of the surface (less half the initial size); [pressed] is true, the
    phase is INACTIVE and no origin event is tracked; and it begins the
    release at once: one wait of the full 225 ms is added, which cannot
    complete earlier and which, completing after 225 ms, sets [pressed] to
    false. *)
Theorem synthetic_click :
  forall w surface,
    stateRef w = INACTIVE -> isBrowser w = true -> surfaceRef w = Some surface ->
    let w' := onClick false w in
    let fresh := List.length (animations w) in
    let wait := List.length (timers w) in
    pressed w' = true
    /\ stateRef w' = INACTIVE
    /\ rippleStartEventRef w' = None
    /\ growAnimationRef w' = Some fresh
    /\ List.length (animations w') = S fresh
    /\ nth_error (animations w') fresh = Some (pressAnimation None surface w)
    /\ kf_translateStart (anim_keyframes (pressAnimation None surface w))
       = {| pt_x := (width surface / 2 - initialSize (rippleSize surface) / 2)%float;
            pt_y := (height surface / 2 - initialSize (rippleSize surface) / 2)%float |}
    /\ timers w' = timers w ++ [(now w + MINIMUM_PRESS_MS, AfterMinimumPress (Some fresh))]
    /\ (forall dt, dt < MINIMUM_PRESS_MS ->
                   exec (Fire wait) (exec (Tick dt) w') = exec (Tick dt) w')
    /\ (let w'' := run [Tick MINIMUM_PRESS_MS; Fire wait] w' in
        pressed w'' = false
        /\ stateRef w'' = INACTIVE
        /\ timers w'' = timers w
        /\ animations w'' = animations w').
Proof.
  intros w surface Hst Hb Hs w' fresh wait. subst fresh wait.
  set (w1 := startPressAnimation None w).
  assert (Hw' : w' = endPressAnimation w1).
  { unfold w', onClick. rewrite Hst. reflexivity. }
  destruct (startPressAnimation_effect None w surface Hb Hs)
    as (Hp1 & Hg1 & _ & Hnew1 & Hlen1 & _).
  destruct (startPressAnimation_frame None w) as (_ & _ & _ & Ht1 & Hnow1 & _).
  fold w1 in Hp1, Hg1, Hnew1, Hlen1, Ht1, Hnow1.
  pose proof (currentTime_after_start None w surface Hb Hs) as Hct. fold w1 in Hct.
  destruct (endPressAnimation_deferred w1 0 Hct) as (Hp & Htm); [reflexivity |].
  destruct (endPressAnimation_refs w1) as (Ho & Hs' & Hg & Ha & Hnow & _).
  rewrite <- Hw' in Hp, Htm, Ho, Hs', Hg, Ha, Hnow.
  rewrite Ht1, Hnow1, Hg1, Z.sub_0_r in Htm.
  assert (Hdue : forall dt,
             exec (Fire (List.length (timers w))) (exec (Tick dt) w')
             = if now w + MINIMUM_PRESS_MS <=? now w + Z.max 0 dt
               then resume (AfterMinimumPress (Some (List.length (animations w))))
                      (set_timers (timers w) (exec (Tick dt) w'))
               else exec (Tick dt) w').
  { intros dt.
    rewrite (fire_last (timers w) (now w + MINIMUM_PRESS_MS)
               (AfterMinimumPress (Some (List.length (animations w)))))
      by (simpl; exact Htm).
    simpl. rewrite Hnow, Hnow1. reflexivity. }
  split; [congruence | split; [exact Hs' | split; [exact Ho |]]].
  split; [congruence | split; [congruence | split; [congruence |]]].
  split; [reflexivity | split; [exact Htm | split]].
  - intros dt Hdt. rewrite Hdue.
    replace (now w + MINIMUM_PRESS_MS <=? now w + Z.max 0 dt) with false; [reflexivity |].
    symmetry. apply Z.leb_gt. unfold MINIMUM_PRESS_MS in *. lia.
  - intros w''. unfold w''.
    change (run [Tick MINIMUM_PRESS_MS; Fire (List.length (timers w))] w')
      with (exec (Fire (List.length (timers w))) (exec (Tick MINIMUM_PRESS_MS) w')).
    rewrite Hdue.
    replace (now w + MINIMUM_PRESS_MS <=? now w + Z.max 0 MINIMUM_PRESS_MS) with true
      by (symmetry; apply Z.leb_le; unfold MINIMUM_PRESS_MS; lia).
    rewrite current_release_completes by (simpl; congruence).
    simpl. repeat split; congruence.
Qed.

Lemma synthetic_click_witness :
  pressed (onClick false demo_mount) = true
  /\ pressed (run [Tick MINIMUM_PRESS_MS; Fire 0] (onClick false demo_mount)) = false
  /\ kf_translateStart (anim_keyframes (pressAnimation None demo_surface demo_mount))
     = {| pt_x := 40; pt_y := 10 |}.
Proof.
  destruct (synthetic_click demo_mount demo_surface)
    as (Hp & _ & _ & _ & _ & _ & Hc & _ & _ & (Hr & _)); try reflexivity.
  split; [exact Hp | split; [exact Hr |]].
  rewrite Hc. vm_compute. reflexivity.
Defined.

(** C4. Ripple geometry. For every bounding box of width [W] and height
    [H], the locals of [determineRippleSize] are the values of the
    specification's formulas (in binary64 arithmetic): [initialDiameter] is
    floor(max(W,H) x 0.2), [softEdge] is max(0.35 x max(W,H), 75),
    [maxRadius] is sqrt(W^2 + H^2) + 10 and [targetScale] is
    (maxRadius + softEdge) / initialDiameter; the refs receive the initial
    diameter, its text in px and the text of the scale. For W = 100 and
    H = 40 this is 20, 75 and (sqrt(11600) + 10 + 75) / 20. *)
Theorem ripple_geometry :
  forall element w,
    let W := width element in
    let H := height element in
    let s := rippleSize element in
    (maxDim s = Spec.maxDimension W H
     /\ initialSize s = Spec.initialDiameter W H
     /\ softEdgeSize s = Spec.softEdge W H
     /\ hypotenuse s = Spec.hypotenuse W H
     /\ maxRadius s = Spec.maxRadius W H
     /\ scale s = Spec.targetScale W H)
    /\ (initialSizeRef (determineRippleSize element w) = Spec.initialDiameter W H
        /\ rippleSizeRef (determineRippleSize element w) = PxText (Spec.initialDiameter W H)
        /\ rippleScaleRef (determineRippleSize element w)
           = NumberText (Spec.targetScale W H))
    /\ (Spec.maxDimension 100 40 = 100%float
        /\ Spec.initialDiameter 100 40 = 20%float
        /\ Spec.softEdge 100 40 = 75%float
        /\ Spec.hypotenuse 100 40 = JsMath.sqrt 11600
        /\ Spec.targetScale 100 40 = ((JsMath.sqrt 11600 + 10 + 75) / 20)%float).
Proof.
  intros element w W H s.
  assert (Hmax : maxDim s = Spec.maxDimension W H) by apply max_comm.
  assert (Hlocals :
            maxDim s = Spec.maxDimension W H
            /\ initialSize s = Spec.initialDiameter W H
            /\ softEdgeSize s = Spec.softEdge W H
            /\ hypotenuse s = Spec.hypotenuse W H
            /\ maxRadius s = Spec.maxRadius W H
            /\ scale s = Spec.targetScale W H).
  { unfold s, rippleSize, Spec.targetScale, Spec.maxRadius, Spec.hypotenuse,
      Spec.initialDiameter, Spec.softEdge, Spec.maxDimension in *.
    cbn [maxDim initialSize softEdgeSize hypotenuse maxRadius scale] in *.
    fold W H in Hmax |- *. rewrite Hmax. repeat split; reflexivity. }
  split; [exact Hlocals | split].
  - destruct Hlocals as (_ & Hi & _ & _ & _ & Hsc).
    unfold determineRippleSize. fold s. cbn [initialSizeRef rippleSizeRef rippleScaleRef set_sizeRefs].
    rewrite Hi, Hsc. repeat split; reflexivity.
  - repeat split; vm_compute; reflexivity.
Qed.

(** C9. Zero initial diameter. For every bounding box (width and height not
    negative) with max(width, height) < 5, [determineRippleSize] computes an
    initial size of zero, so the scale it stores is a quotient by zero and
    is not a finite number; nothing in the function excludes the case. For
    a 0 x 0 box the stored scale is [Infinity]. *)
Theorem zero_initial_diameter :
  forall element w,
    (0 <=? width element)%float = true ->
    (0 <=? height element)%float = true ->
    (JsMath.max (width element) (height element) <? 5)%float = true ->
    let s := rippleSize element in
    (initialSize s = 0%float \/ initialSize s = (-0)%float)
    /\ scale s = ((maxRadius s + softEdgeSize s) / initialSize s)%float
    /\ is_finite (scale s) = false
    /\ initialSizeRef (determineRippleSize element w) = initialSize s
    /\ rippleScaleRef (determineRippleSize element w) = NumberText (scale s).
Proof.
  intros element w Hw Hh Hmax s.
  rewrite max_comm in Hmax.
  assert (Hnn : (0 <=? JsMath.max (height element) (width element))%float = true).
  { assert (Hnan : forall v, (0 <=? v)%float = true -> is_nan v = false).
    { intros v Hv. rewrite is_nan_spec. rewrite FloatAxioms.leb_spec in Hv.
      destruct (Prim2SF v); try reflexivity.
      change (Prim2SF 0%float) with (S754_zero false) in Hv. discriminate. }
    unfold JsMath.max. rewrite (Hnan _ Hw), (Hnan _ Hh). cbn [orb].
    destruct (height element <? width element)%float; [exact Hw |].
    destruct (width element <? height element)%float; [exact Hh |].
    destruct (get_sign (height element)); assumption. }
  pose proof (floor_of_small _ (scaled_below_one _ Hnn Hmax)) as Hzero.
  change (JsMath.floor (JsMath.max (height element) (width element) * INITIAL_ORIGIN_SCALE)%float)
    with (initialSize s) in Hzero.
  split; [exact Hzero | split; [reflexivity | split; [| split; reflexivity]]].
  change (scale s) with ((maxRadius s + softEdgeSize s) / initialSize s)%float.
  destruct Hzero as [Hz | Hz]; rewrite Hz.
  - apply (div_by_zero_not_finite _ _ false). reflexivity.
  - apply (div_by_zero_not_finite _ _ true). reflexivity.
Qed.

Lemma zero_initial_diameter_witness :
  initialSize (rippleSize {| rect_left := 0; rect_top := 0; width := 0; height := 0 |})
  = 0%float
  /\ is_finite (scale (rippleSize {| rect_left := 0; rect_top := 0; width := 0; height := 0 |}))
     = false
  /\ rippleScaleRef
       (determineRippleSize {| rect_left := 0; rect_top := 0; width := 0; height := 0 |}
          demo_mount)
     = NumberText infinity
  /\ is_finite (scale (rippleSize {| rect_left := 0; rect_top := 0;
                                     width := 4.5; height := 3 |})) = false.
Proof.
  split; [vm_compute; reflexivity | split; [| split]].
  - apply (zero_initial_diameter
             {| rect_left := 0; rect_top := 0; width := 0; height := 0 |} demo_mount);
      vm_compute; reflexivity.
  - vm_compute. reflexivity.
  - apply (zero_initial_diameter
             {| rect_left := 0; rect_top := 0; width := 4.5; height := 3 |} demo_mount);
      vm_compute; reflexivity.
Defined.

(** * Further properties of the hook *)

Ltac handlers :=
  unfold handler, onPointerEnter, onPointerLeave, onPointerDown, onPointerUp,
         onPointerCancel, onClick.

Lemma stateRef_startPressAnimation event w :
  stateRef (startPressAnimation event w) = stateRef w.
Proof. apply (startPressAnimation_frame event w). Qed.

Lemma origin_startPressAnimation event w :
  rippleStartEventRef (startPressAnimation event w) = rippleStartEventRef w.
Proof. apply (startPressAnimation_frame event w). Qed.

Lemma hovered_startPressAnimation event w :
  hovered (startPressAnimation event w) = hovered w.
Proof. apply (startPressAnimation_frame event w). Qed.

Lemma timers_startPressAnimation event w :
  timers (startPressAnimation event w) = timers w.
Proof. apply (startPressAnimation_frame event w). Qed.

Lemma now_startPressAnimation event w :
  now (startPressAnimation event w) = now w.
Proof. apply (startPressAnimation_frame event w). Qed.

Lemma stateRef_endPressAnimation w : stateRef (endPressAnimation w) = INACTIVE.
Proof. apply (endPressAnimation_refs w). Qed.

Lemma origin_endPressAnimation w : rippleStartEventRef (endPressAnimation w) = None.
Proof. apply (endPressAnimation_refs w). Qed.

Lemma hovered_endPressAnimation w : hovered (endPressAnimation w) = hovered w.
Proof. apply (endPressAnimation_refs w). Qed.

Lemma current_endPressAnimation w :
  growAnimationRef (endPressAnimation w) = growAnimationRef w.
Proof. apply (endPressAnimation_refs w). Qed.

Lemma now_endPressAnimation w : now (endPressAnimation w) = now w.
Proof. apply (endPressAnimation_refs w). Qed.

(** The release leaves [pressed] and the timers alone, or clears [pressed],
    or adds one wait on the current animation. *)
Lemma endPressAnimation_outcome w :
  (pressed (endPressAnimation w) = false /\ timers (endPressAnimation w) = timers w)
  \/ (exists t,
        currentTime (growAnimationRef w) w = Some t /\ t < MINIMUM_PRESS_MS
        /\ pressed (endPressAnimation w) = pressed w
        /\ timers (endPressAnimation w)
           = timers w ++ [(now w + (MINIMUM_PRESS_MS - t),
                           AfterMinimumPress (growAnimationRef w))]).
Proof.
  destruct (currentTime (growAnimationRef w) w) as [t|] eqn:Ht.
  - destruct (Z_lt_le_dec t MINIMUM_PRESS_MS) as [Hlt | Hle].
    + right. exists t. destruct (endPressAnimation_deferred w t Ht Hlt). auto.
    + left. apply endPressAnimation_immediate. rewrite Ht. exact Hle.
  - left. apply endPressAnimation_immediate. rewrite Ht. exact I.
Qed.

(** X1. The phase only moves along the edges of [edge], and every edge
    whose guard holds is taken. *)
Theorem phase_transitions :
  forall i w,
    (stateRef (exec i w) <> stateRef w -> edge w i (stateRef (exec i w)))
    /\ (forall p, edge w i p -> stateRef (exec i w) = p).
Proof.
  intros i w. split.
  - destruct i as [d c | dt | n | s sx sy | g t]; cbn [exec]; try (intros H; now elim H).
    + destruct c as [e | e | e | e | e |]; handlers;
        try (destruct (shouldReactToEvent d w e) eqn:Hok; cbn [negb];
             [| intros H; now elim H]).
      * fields. intros H; now elim H.
      * fields. destruct (StateType_eqb (stateRef w) INACTIVE) eqn:Hs; cbn [negb].
        -- fields. intros H; now elim H.
        -- rewrite stateRef_endPressAnimation. intros _. apply edge_leave; [exact Hok |].
           intros Heq. rewrite Heq in Hs. discriminate.
      * destruct (isTouch e) eqn:Ht; cbn [negb].
        -- fields. intros _. apply edge_down_touch; assumption.
        -- rewrite stateRef_startPressAnimation. fields. intros _.
           apply edge_down_direct; assumption.
      * destruct (stateRef w) eqn:Hs; fields; try (intros H; now elim H);
          try rewrite stateRef_startPressAnimation; fields;
          intros _; apply edge_up; auto.
      * rewrite stateRef_endPressAnimation. intros _. apply edge_cancel. exact Hok.
      * destruct d; [intros H; now elim H |].
        destruct (stateRef w) eqn:Hs; fields; rewrite ?stateRef_endPressAnimation;
          try (intros H; now elim H).
        intros _. apply edge_click. exact Hs.
    + destruct (nth_error (timers w) n) as [[due k]|] eqn:Hn; [| intros H; now elim H].
      destruct (due <=? now w) eqn:Hdue; [| intros H; now elim H].
      destruct k as [e | c]; unfold resume; fields.
      * destruct (stateRef w) eqn:Hs; fields; try (intros H; now elim H).
        rewrite stateRef_startPressAnimation. fields. intros _.
        apply (edge_delay w n due e); [exact Hn | apply Z.leb_le; exact Hdue | exact Hs].
      * destruct (negb (handle_eqb (growAnimationRef w) c)); fields; intros H; now elim H.
  - intros p Hedge.
    destruct Hedge as [d e Hok Ht | d e Hok Ht | d e Hok Hs | d e Hok Hs | d e Hok
                       | Hs | n due e Hn Hdue Hs]; cbn [exec]; handlers;
      rewrite ?Hok; cbn [negb].
    + rewrite Ht. cbn [negb]. rewrite stateRef_startPressAnimation. reflexivity.
    + rewrite Ht. reflexivity.
    + destruct Hs as [Hs | Hs]; rewrite Hs; fields;
        rewrite ?stateRef_startPressAnimation; reflexivity.
    + fields. destruct (stateRef w); try (now elim Hs); fields;
        apply stateRef_endPressAnimation.
    + apply stateRef_endPressAnimation.
    + rewrite Hs. fields. apply stateRef_endPressAnimation.
    + rewrite Hn. apply Z.leb_le in Hdue. rewrite Hdue. unfold resume. fields.
      rewrite Hs. fields. rewrite stateRef_startPressAnimation. reflexivity.
Qed.

Lemma phase_transitions_witness :
  edge demo_mount (Call false (PointerDown (demo_event "pointerdown" 1 "mouse" 1)))
       WAITING_FOR_CLICK
  /\ stateRef (exec (Call false (PointerDown (demo_event "pointerdown" 1 "mouse" 1)))
                 demo_mount) = WAITING_FOR_CLICK.
Proof.
  assert (He : edge demo_mount
                 (Call false (PointerDown (demo_event "pointerdown" 1 "mouse" 1)))
                 WAITING_FOR_CLICK)
    by (apply edge_down_direct; reflexivity).
  split; [exact He |].
  exact (proj2 (phase_transitions _ demo_mount) WAITING_FOR_CLICK He).
Defined.

Lemma session_ok_exec i w : session_ok w -> session_ok (exec i w).
Proof.
  intros [Hiff Htouch].
  assert (Hkeep : forall w', stateRef w' = stateRef w ->
                             rippleStartEventRef w' = rippleStartEventRef w ->
                             session_ok w').
  { intros w' Hs Ho. unfold session_ok. rewrite Hs, Ho. split; assumption. }
  assert (Hidle : forall w', stateRef w' = INACTIVE -> rippleStartEventRef w' = None ->
                             session_ok w').
  { intros w' Hs Ho. unfold session_ok. rewrite Hs, Ho. split; [tauto |].
    intros [H | H]; discriminate. }
  assert (Hwait : forall w' o, stateRef w' = WAITING_FOR_CLICK ->
                               rippleStartEventRef w' = Some o -> session_ok w').
  { intros w' o Hs Ho. unfold session_ok. rewrite Hs, Ho. split.
    - split; discriminate.
    - intros [H | H]; discriminate. }
  destruct i as [d c | dt | n | s sx sy | g t]; cbn [exec];
    try (apply Hkeep; reflexivity).
  - destruct c as [e | e | e | e | e |]; handlers;
      try (destruct (shouldReactToEvent d w e) eqn:Hok; cbn [negb];
           [| apply Hkeep; reflexivity]).
    + apply Hkeep; reflexivity.
    + fields. destruct (negb (StateType_eqb (stateRef w) INACTIVE)).
      * apply Hidle; [apply stateRef_endPressAnimation | apply origin_endPressAnimation].
      * apply Hkeep; reflexivity.
    + destruct (isTouch e) eqn:Ht; cbn [negb].
      * unfold session_ok. fields. split.
        -- split; discriminate.
        -- intros _. exists e. split; [reflexivity | exact Ht].
      * apply (Hwait _ e).
        -- rewrite stateRef_startPressAnimation. reflexivity.
        -- rewrite origin_startPressAnimation. reflexivity.
    + destruct (stateRef w) eqn:Hs; fields; try (apply Hkeep; [exact Hs | reflexivity]).
      * destruct Htouch as (o & Ho & _); [left; reflexivity |].
        apply (Hwait _ o).
        -- rewrite stateRef_startPressAnimation. reflexivity.
        -- rewrite origin_startPressAnimation. fields. exact Ho.
      * destruct Htouch as (o & Ho & _); [right; reflexivity |].
        apply (Hwait _ o); [reflexivity | exact Ho].
    + apply Hidle; [apply stateRef_endPressAnimation | apply origin_endPressAnimation].
    + destruct d; [apply Hkeep; reflexivity |].
      destruct (stateRef w) eqn:Hs; fields;
        try (apply Hkeep; [exact Hs | reflexivity]);
        apply Hidle; try apply stateRef_endPressAnimation;
        apply origin_endPressAnimation.
  - destruct (nth_error (timers w) n) as [[due k]|]; [| apply Hkeep; reflexivity].
    destruct (due <=? now w); [| apply Hkeep; reflexivity].
    destruct k as [e | c]; unfold resume; fields.
    + destruct (stateRef w) eqn:Hs; fields; try (apply Hkeep; [exact Hs | reflexivity]).
      destruct Htouch as (o & Ho & Ht); [left; reflexivity |].
      unfold session_ok. rewrite stateRef_startPressAnimation, origin_startPressAnimation.
      fields. rewrite Ho. split.
      * split; discriminate.
      * intros _. exists o. split; [reflexivity | exact Ht].
    + destruct (negb (handle_eqb (growAnimationRef w) c)); apply Hkeep; reflexivity.
Qed.

Lemma session_ok_run inputs : forall w, session_ok w -> session_ok (run inputs w).
Proof.
  induction inputs as [| i rest IH]; intros w Hw; cbn [run]; [exact Hw |].
  apply IH, session_ok_exec, Hw.
Qed.

(** X2. In every state of a run the origin event is tracked exactly when
    the phase is not INACTIVE, and the phases TOUCH_DELAY and HOLDING only
    occur while the origin event is a touch. *)
Theorem phase_tracks_origin :
  forall browser surface sx sy inputs,
    let w := run inputs (mount browser surface sx sy) in
    (stateRef w = INACTIVE <-> rippleStartEventRef w = None)
    /\ (stateRef w = TOUCH_DELAY \/ stateRef w = HOLDING ->
        exists origin, rippleStartEventRef w = Some origin
                       /\ pointerType origin = "touch"%string).
Proof.
  intros browser surface sx sy inputs w.
  assert (H : session_ok w).
  { apply session_ok_run. split; [split; reflexivity |].
    intros [H | H]; discriminate. }
  destruct H as [Hiff Htouch]. split; [exact Hiff |].
  intros Hp. destruct (Htouch Hp) as (o & Ho & Ht).
  exists o. split; [exact Ho | apply isTouch_true; exact Ht].
Qed.

(** ** The animation store along a run *)

(** A step leaves the store as it is, or changes it as one
    [startPressAnimation] does, from a state with the same store, clock and
    surface and no further timers, or moves the current time of one
    animation. *)
Lemma exec_store_cases i w :
  (growAnimationRef (exec i w) = growAnimationRef w
   /\ animations (exec i w) = animations w)
  \/ (exists event x,
       growAnimationRef x = growAnimationRef w /\ animations x = animations w
       /\ pressed x = pressed w /\ now x = now w
       /\ isBrowser x = isBrowser w /\ surfaceRef x = surfaceRef w
       /\ (forall t, In t (timers x) -> In t (timers w))
       /\ growAnimationRef (exec i w) = growAnimationRef (startPressAnimation event x)
       /\ animations (exec i w) = animations (startPressAnimation event x))
  \/ (exists g t,
       i = Timeline g t
       /\ growAnimationRef (exec i w) = growAnimationRef w
       /\ animations (exec i w) = update_nth g (seek t) (animations w)).
Proof.
  assert (Hstart : forall event x,
             growAnimationRef x = growAnimationRef w -> animations x = animations w ->
             pressed x = pressed w -> now x = now w ->
             isBrowser x = isBrowser w -> surfaceRef x = surfaceRef w ->
             (forall t, In t (timers x) -> In t (timers w)) ->
             forall y, growAnimationRef y = growAnimationRef (startPressAnimation event x) ->
                       animations y = animations (startPressAnimation event x) ->
             (growAnimationRef y = growAnimationRef w /\ animations y = animations w)
             \/ (exists event x,
                  growAnimationRef x = growAnimationRef w /\ animations x = animations w
                  /\ pressed x = pressed w /\ now x = now w
                  /\ isBrowser x = isBrowser w /\ surfaceRef x = surfaceRef w
                  /\ (forall t, In t (timers x) -> In t (timers w))
                  /\ growAnimationRef y = growAnimationRef (startPressAnimation event x)
                  /\ animations y = animations (startPressAnimation event x))
             \/ (exists g t,
                  i = Timeline g t
                  /\ growAnimationRef y = growAnimationRef w
                  /\ animations y = update_nth g (seek t) (animations w))).
  { intros event x H1 H2 H3 H4 H5 H6 H7 y Hy1 Hy2. right. left. exists event, x.
    repeat split; assumption. }
  destruct i as [d c | dt | n | s sx sy | g t]; cbn [exec]; try (left; split; reflexivity).
  - destruct c as [e | e | e | e | e |]; handlers;
      try (destruct (negb (shouldReactToEvent d w e)); [left; split; reflexivity |]).
    + left. split; reflexivity.
    + fields. destruct (negb (StateType_eqb (stateRef w) INACTIVE)).
      * left. rewrite current_endPressAnimation, endPressAnimation_animations.
        split; reflexivity.
      * left. split; reflexivity.
    + destruct (negb (isTouch e)).
      * apply (Hstart (Some e)
                 (set_stateRef WAITING_FOR_CLICK (set_rippleStartEventRef (Some e) w)));
          try reflexivity.
        intros t Ht. exact Ht.
      * left. split; reflexivity.
    + destruct (StateType_eqb (stateRef w) HOLDING); [left; split; reflexivity |].
      destruct (StateType_eqb (stateRef w) TOUCH_DELAY); [| left; split; reflexivity].
      apply (Hstart (rippleStartEventRef w) (set_stateRef WAITING_FOR_CLICK w));
        try reflexivity.
      intros t Ht. exact Ht.
    + left. rewrite current_endPressAnimation, endPressAnimation_animations.
      split; reflexivity.
    + destruct d; [left; split; reflexivity |].
      destruct (StateType_eqb (stateRef w) WAITING_FOR_CLICK).
      { left. rewrite current_endPressAnimation, endPressAnimation_animations.
        split; reflexivity. }
      destruct (StateType_eqb (stateRef w) INACTIVE); [| left; split; reflexivity].
      apply (Hstart None w); try reflexivity.
      * intros t Ht. exact Ht.
      * apply current_endPressAnimation.
      * apply endPressAnimation_animations.
  - destruct (nth_error (timers w) n) as [[due k]|]; [| left; split; reflexivity].
    destruct (due <=? now w); [| left; split; reflexivity].
    destruct k as [e | c]; unfold resume; fields.
    + destruct (negb (StateType_eqb (stateRef w) TOUCH_DELAY));
        [left; split; reflexivity |].
      apply (Hstart (Some e)
               (set_stateRef HOLDING (set_timers (remove_nth n (timers w)) w)));
        try reflexivity.
      fields. intros t. apply In_remove_nth.
    + destruct (negb (handle_eqb (growAnimationRef w) c)); left; split; reflexivity.
  - right. right. exists g, t. repeat split; reflexivity.
Qed.

Lemma one_live_startPressAnimation event w :
  consistent w -> one_live_animation w -> one_live_animation (startPressAnimation event w).
Proof.
  intros Hc Hone. destruct (startPressAnimation_cases event w) as [H | (s & Hb & Hs)].
  - rewrite H. exact Hone.
  - destruct (startPressAnimation_effect event w s Hb Hs)
      as (_ & Hg & _ & _ & Hlen & Hcancel).
    intros h a Ha Hlive. rewrite Hg. f_equal.
    assert (Hh : (h < S (List.length (animations w)))%nat)
      by (rewrite <- Hlen; apply nth_error_Some; rewrite Ha; discriminate).
    destruct (Nat.eq_dec h (List.length (animations w))) as [Heq | Hne];
      [symmetry; exact Heq |].
    exfalso. assert (Hlt : (h < List.length (animations w))%nat) by lia.
    rewrite (startPressAnimation_started event w s Hb Hs) in Ha.
    cbn [animations set_growAnimationRef set_animations] in Ha.
    rewrite nth_error_app1 in Ha by (rewrite cancel_length; exact Hlt).
    pose proof (current_is_last w Hc) as Hlast.
    destruct (growAnimationRef w) as [g|] eqn:Hcur.
    + cbn [cancel animations set_animations] in Ha.
      rewrite nth_error_update_nth in Ha.
      destruct (Nat.eqb g h) eqn:Hgh.
      * destruct (nth_error (animations w) h); [| discriminate].
        cbn [option_map] in Ha. injection Ha as <-. discriminate.
      * apply Nat.eqb_neq in Hgh. apply Hgh.
        pose proof (Hone h a Ha Hlive) as Hcur'. congruence.
    + rewrite Hlast in Hlt. cbn in Hlt. lia.
Qed.

Lemma one_live_exec i w :
  consistent w -> one_live_animation w -> one_live_animation (exec i w).
Proof.
  intros Hc Hone.
  destruct (exec_store_cases i w)
    as [(Hg & Ha) | [(event & x & Hg & Ha & Hp & _ & _ & _ & Ht & Hg' & Ha')
                    | (g & t & _ & Hg & Ha)]].
  - unfold one_live_animation. rewrite Hg, Ha. exact Hone.
  - assert (Hcx : consistent x)
      by (apply (consistent_ext w); auto; congruence).
    unfold one_live_animation. rewrite Hg', Ha'.
    apply one_live_startPressAnimation; [exact Hcx |].
    unfold one_live_animation. rewrite Hg, Ha. exact Hone.
  - unfold one_live_animation. rewrite Hg, Ha. intros h a. rewrite seek_entry.
    destruct (nth_error (animations w) h) as [a0|] eqn:Ha0; [| discriminate].
    intros Heq Hlive. apply (Hone h a0 Ha0).
    assert (Hseek : a = if Nat.eqb g h then seek t a0 else a0)
      by (simpl in Heq; congruence).
    rewrite Hseek in Hlive. destruct (Nat.eqb g h); exact Hlive.
Qed.

Lemma one_live_run inputs :
  forall w, consistent w -> one_live_animation w -> one_live_animation (run inputs w).
Proof.
  induction inputs as [| i rest IH]; intros w Hc Hone; cbn [run]; [exact Hone |].
  apply IH; [apply consistent_exec, Hc | apply one_live_exec; assumption].
Qed.

(** X3. At most one grow animation is live: in every state of a run, every
    animation that was created and is not the current one has been
    cancelled. *)
Theorem single_live_animation :
  forall browser surface sx sy inputs h a,
    let w := run inputs (mount browser surface sx sy) in
    nth_error (animations w) h = Some a ->
    growAnimationRef w <> Some h ->
    anim_cancelled a = true.
Proof.
  intros browser surface sx sy inputs h a w Ha Hne.
  destruct (anim_cancelled a) eqn:Hlive; [reflexivity |].
  exfalso. apply Hne.
  assert (Hone : one_live_animation w).
  { apply one_live_run; [apply consistent_mount |].
    intros h' a' Hn. destruct h'; discriminate. }
  exact (Hone h a Ha Hlive).
Qed.

Lemma single_live_animation_witness :
  nth_error (animations (exec demo_second_press (run demo_released demo_mount))) 0
  <> None
  /\ forall a,
       nth_error (animations (exec demo_second_press (run demo_released demo_mount))) 0
       = Some a ->
       anim_cancelled a = true.
Proof.
  split; [vm_compute; discriminate |].
  intros a Ha.
  apply (single_live_animation true (Some demo_surface) 0%float 0%float
           (demo_released ++ [demo_second_press]) 0%nat a).
  - exact Ha.
  - vm_compute. discriminate.
Defined.

(** ** Due times *)

Lemma on_time_ext w w' :
  animations w' = animations w -> now w <= now w' ->
  (forall t, In t (timers w') -> In t (timers w)) ->
  timers_on_time w -> timers_on_time w'.
Proof.
  intros Ha Hnow Ht (H1 & H2 & H3). unfold timers_on_time. rewrite Ha.
  split; [| split].
  - intros h a Hh. specialize (H1 h a Hh). lia.
  - intros due c Hin. specialize (H2 due c (Ht _ Hin)). lia.
  - intros due e Hin. specialize (H3 due e (Ht _ Hin)). lia.
Qed.

Lemma on_time_startPressAnimation event w :
  timers_on_time w -> timers_on_time (startPressAnimation event w).
Proof.
  intros Hw. destruct (startPressAnimation_cases event w) as [H | (s & Hb & Hs)].
  - rewrite H. exact Hw.
  - destruct Hw as (H1 & H2 & H3). unfold timers_on_time.
    rewrite timers_startPressAnimation, now_startPressAnimation.
    split; [| split; assumption].
    intros h a' Ha'.
    destruct (startPressAnimation_entry event w s h a' Hb Hs Ha')
      as [(a & Ha & Hcr & Hct) | (_ & ->)].
    + rewrite Hcr, Hct. exact (H1 h a Ha).
    + cbn [pressAnimation anim_created anim_currentTime]. lia.
Qed.

Lemma on_time_endPressAnimation w :
  timers_on_time w -> timers_on_time (endPressAnimation w).
Proof.
  intros Hw.
  destruct (endPressAnimation_outcome w) as [(_ & Htm) | (t & Ht & Hlt & _ & Htm)].
  - apply (on_time_ext w); auto.
    + apply endPressAnimation_animations.
    + rewrite now_endPressAnimation. apply Z.le_refl.
    + rewrite Htm. auto.
  - destruct Hw as (H1 & H2 & H3). unfold timers_on_time.
    rewrite endPressAnimation_animations, now_endPressAnimation, Htm.
    split; [exact H1 | split].
    + intros due c Hin. apply in_app_or in Hin.
      destruct Hin as [Hin | [Heq | []]]; [exact (H2 due c Hin) |].
      assert (Hd : due = now w + (MINIMUM_PRESS_MS - t)) by congruence.
      unfold currentTime in Ht. destruct (growAnimationRef w) as [h|]; [| discriminate].
      destruct (nth_error (animations w) h) as [a|] eqn:Hh; [| discriminate].
      destruct (anim_cancelled a); [discriminate |].
      assert (Hread : t = anim_currentTime a) by congruence.
      specialize (H1 h a Hh). lia.
    + intros due e Hin. apply in_app_or in Hin.
      destruct Hin as [Hin | [Heq | []]]; [exact (H3 due e Hin) | discriminate].
Qed.

Lemma on_time_setTimeout_touch event w :
  timers_on_time w -> timers_on_time (setTimeout TOUCH_DELAY_MS (AfterTouchDelay event) w).
Proof.
  intros (H1 & H2 & H3). unfold timers_on_time, setTimeout. fields.
  split; [exact H1 | split].
  - intros due c Hin. apply in_app_or in Hin.
    destruct Hin as [Hin | [Heq | []]]; [exact (H2 due c Hin) | discriminate].
  - intros due e Hin. apply in_app_or in Hin.
    destruct Hin as [Hin | [Heq | []]]; [exact (H3 due e Hin) |].
    assert (Hd : due = now w + Z.max 0 TOUCH_DELAY_MS) by congruence.
    unfold TOUCH_DELAY_MS in *. lia.
Qed.

Lemma on_time_exec i w :
  (forall g t, i = Timeline g t -> 0 <= t) ->
  timers_on_time w -> timers_on_time (exec i w).
Proof.
  intros Hpos Hw.
  assert (Hsame : forall w', animations w' = animations w -> now w' = now w ->
                             timers w' = timers w -> timers_on_time w').
  { intros w' Ha Hn Ht. apply (on_time_ext w); auto; [lia | rewrite Ht; auto]. }
  destruct i as [d c | dt | n | s sx sy | g t]; cbn [exec].
  - destruct c as [e | e | e | e | e |]; handlers;
      try (destruct (negb (shouldReactToEvent d w e)); [exact Hw |]).
    + apply Hsame; reflexivity.
    + fields. destruct (negb (StateType_eqb (stateRef w) INACTIVE)).
      * apply on_time_endPressAnimation. apply Hsame; reflexivity.
      * apply Hsame; reflexivity.
    + destruct (negb (isTouch e)).
      * apply on_time_startPressAnimation. apply Hsame; reflexivity.
      * apply on_time_setTimeout_touch. apply Hsame; reflexivity.
    + destruct (StateType_eqb (stateRef w) HOLDING); [apply Hsame; reflexivity |].
      destruct (StateType_eqb (stateRef w) TOUCH_DELAY); [| exact Hw].
      apply on_time_startPressAnimation. apply Hsame; reflexivity.
    + apply on_time_endPressAnimation. exact Hw.
    + destruct d; [exact Hw |].
      destruct (StateType_eqb (stateRef w) WAITING_FOR_CLICK);
        [apply on_time_endPressAnimation; exact Hw |].
      destruct (StateType_eqb (stateRef w) INACTIVE); [| exact Hw].
      apply on_time_endPressAnimation, on_time_startPressAnimation, Hw.
  - apply (on_time_ext w); auto; fields; lia.
  - destruct (nth_error (timers w) n) as [[due k]|]; [| exact Hw].
    destruct (due <=? now w); [| exact Hw].
    assert (Hrem : timers_on_time (set_timers (remove_nth n (timers w)) w)).
    { apply (on_time_ext w); auto; fields; [lia |]. intros t. apply In_remove_nth. }
    destruct k as [e | c]; unfold resume.
    + destruct (negb (StateType_eqb
                        (stateRef (set_timers (remove_nth n (timers w)) w)) TOUCH_DELAY));
        [exact Hrem |].
      apply on_time_startPressAnimation.
      apply (on_time_ext (set_timers (remove_nth n (timers w)) w)); auto.
      apply Z.le_refl.
    + destruct (negb (handle_eqb
                        (growAnimationRef (set_timers (remove_nth n (timers w)) w)) c));
        [exact Hrem |].
      apply (on_time_ext (set_timers (remove_nth n (timers w)) w)); auto.
      apply Z.le_refl.
  - apply Hsame; reflexivity.
  - destruct Hw as (H1 & H2 & H3). split; [| split; assumption].
    fields. intros h a. rewrite seek_entry.
    destruct (nth_error (animations w) h) as [a0|] eqn:Ha; [| discriminate].
    intros Heq.
    assert (Hseek : a = if Nat.eqb g h then seek t a0 else a0)
      by (simpl in Heq; congruence).
    rewrite Hseek. specialize (H1 h a0 Ha). specialize (Hpos g t eq_refl).
    destruct (Nat.eqb g h); cbn [seek anim_created anim_currentTime]; lia.
Qed.

Lemma on_time_run inputs :
  forall w, readings_nonnegative inputs -> timers_on_time w ->
            timers_on_time (run inputs w).
Proof.
  induction inputs as [| i rest IH]; intros w Hpos Hw; cbn [run]; [exact Hw |].
  apply IH.
  - intros g t Hin. apply (Hpos g t). right. exact Hin.
  - apply on_time_exec; [| exact Hw].
    intros g t ->. apply (Hpos g t). left. reflexivity.
Qed.

Lemma on_time_mount browser surface sx sy : timers_on_time (mount browser surface sx sy).
Proof.
  unfold timers_on_time. cbn [mount animations timers].
  split; [intros h a H; destruct h; discriminate | split; intros ? ? []].
Qed.

(** X4. Due times. Along a run in which the host reports no negative
    current time, no pending timer is far off: in every state a pending
    release wait is due within 225 ms from now and belongs to an animation
    of the store that was not created in the future, and a pending touch
    delay is due within 150 ms from now. *)
Theorem pending_timers_due :
  forall browser surface sx sy inputs due k,
    let w := run inputs (mount browser surface sx sy) in
    readings_nonnegative inputs ->
    In (due, k) (timers w) ->
    match k with
    | AfterMinimumPress c =>
        due <= now w + MINIMUM_PRESS_MS
        /\ exists h a, c = Some h /\ nth_error (animations w) h = Some a
                       /\ anim_created a <= now w
    | AfterTouchDelay _ => due <= now w + TOUCH_DELAY_MS
    end.
Proof.
  intros browser surface sx sy inputs due k w Hpos Hin.
  destruct (on_time_run inputs _ Hpos (on_time_mount browser surface sx sy))
    as (H1 & H2 & H3).
  fold w in H1, H2, H3. destruct k as [e | c].
  - exact (H3 due e Hin).
  - split; [exact (H2 due c Hin) |].
    assert (Hc : consistent w) by (apply consistent_run, consistent_mount).
    destruct (release_waits w Hc due c Hin) as (h & a & Hh & Ha).
    exists h, a. split; [exact Hh | split; [exact Ha |]]. apply (H1 h a Ha).
Qed.

Lemma pending_timers_due_witness :
  In (225, AfterMinimumPress (Some 0%nat)) (timers (run demo_released demo_mount))
  /\ 225 <= now (run demo_released demo_mount) + MINIMUM_PRESS_MS
  /\ exists h a, Some 0%nat = Some h
                 /\ nth_error (animations (run demo_released demo_mount)) h = Some a
                 /\ anim_created a <= now (run demo_released demo_mount).
Proof.
  assert (Hin : In (225, AfterMinimumPress (Some 0%nat))
                   (timers (run demo_released demo_mount)))
    by (vm_compute; left; reflexivity).
  assert (Hpos : readings_nonnegative demo_released).
  { intros g t Hg. cbn [demo_released In] in Hg.
    repeat (destruct Hg as [Hg | Hg]; try discriminate); try contradiction.
    injection Hg as _ <-. lia. }
  split; [exact Hin |].
  exact (pending_timers_due true (Some demo_surface) 0%float 0%float demo_released
           225 (AfterMinimumPress (Some 0%nat)) Hpos Hin).
Defined.

(** ** A released press ends *)

Ltac fields_in H :=
  cbn -[Z.add Z.sub Z.max Z.min Z.leb Z.ltb Z.eqb Z.mul String.eqb Nat.eqb
        nth_error app List.length] in H.

Lemma In_remove_nth_other {A} (x y : A) l :
  forall n, In x l -> nth_error l n = Some y -> x <> y -> In x (remove_nth n l).
Proof.
  induction l as [| a l IH]; intros [| n] Hin Hn Hne; cbn in *; try contradiction.
  - injection Hn as ->. destruct Hin as [-> | Hin]; [now elim Hne | exact Hin].
  - destruct Hin as [-> | Hin]; [left; reflexivity | right; exact (IH n Hin Hn Hne)].
Qed.

Lemma release_pending_ext w w' :
  stateRef w' = stateRef w -> pressed w' = pressed w ->
  growAnimationRef w' = growAnimationRef w ->
  (forall t, In t (timers w) -> In t (timers w')) ->
  release_pending w -> release_pending w'.
Proof.
  intros Hs Hp Hg Ht Hw. unfold release_pending. rewrite Hs, Hp, Hg.
  intros Hi Hpr. destruct (Hw Hi Hpr) as (due & Hin). exists due. apply Ht, Hin.
Qed.

Lemma release_pending_active w : stateRef w <> INACTIVE -> release_pending w.
Proof. intros Hne Hi. contradiction. Qed.

Lemma release_pending_endPressAnimation w : release_pending (endPressAnimation w).
Proof.
  intros _ Hp.
  destruct (endPressAnimation_outcome w) as [(Hoff & _) | (t & _ & _ & _ & Htm)];
    [congruence |].
  rewrite current_endPressAnimation, Htm.
  exists (now w + (MINIMUM_PRESS_MS - t)). apply in_or_app. right. left. reflexivity.
Qed.

Lemma release_pending_exec i w : release_pending w -> release_pending (exec i w).
Proof.
  intros Hw.
  assert (Hsame : forall w', stateRef w' = stateRef w -> pressed w' = pressed w ->
                             growAnimationRef w' = growAnimationRef w ->
                             timers w' = timers w -> release_pending w').
  { intros w' Hs Hp Hg Ht. apply (release_pending_ext w); auto. rewrite Ht. auto. }
  destruct i as [d c | dt | n | s sx sy | g t]; cbn [exec]; try (apply Hsame; reflexivity).
  - destruct c as [e | e | e | e | e |]; handlers;
      try (destruct (negb (shouldReactToEvent d w e)); [exact Hw |]).
    + apply Hsame; reflexivity.
    + fields. destruct (negb (StateType_eqb (stateRef w) INACTIVE)).
      * apply release_pending_endPressAnimation.
      * apply Hsame; reflexivity.
    + apply release_pending_active. destruct (negb (isTouch e)).
      * rewrite stateRef_startPressAnimation. discriminate.
      * discriminate.
    + destruct (stateRef w) eqn:Hs; fields; try exact Hw;
        apply release_pending_active; rewrite ?stateRef_startPressAnimation;
        discriminate.
    + apply release_pending_endPressAnimation.
    + destruct d; [exact Hw |].
      destruct (StateType_eqb (stateRef w) WAITING_FOR_CLICK);
        [apply release_pending_endPressAnimation |].
      destruct (StateType_eqb (stateRef w) INACTIVE);
        [apply release_pending_endPressAnimation | exact Hw].
  - destruct (nth_error (timers w) n) as [[due k]|] eqn:Hn; [| exact Hw].
    destruct (due <=? now w); [| exact Hw].
    destruct k as [e | c]; unfold resume; fields.
    + destruct (stateRef w) eqn:Hs; fields;
        try (apply release_pending_active; rewrite ?stateRef_startPressAnimation;
             fields; rewrite ?Hs; discriminate).
      intros _ Hp. fields_in Hp. destruct (Hw Hs Hp) as (due' & Hin).
      exists due'. fields. apply (In_remove_nth_other _ _ _ n Hin Hn). discriminate.
    + destruct (handle_eqb (growAnimationRef w) c) eqn:Heq; fields.
      * intros _ Hp. discriminate.
      * intros Hs Hp. fields_in Hs. fields_in Hp. destruct (Hw Hs Hp) as (due' & Hin).
        exists due'. fields. apply (In_remove_nth_other _ _ _ n Hin Hn).
        intros Habs. injection Habs as _ Hc. rewrite <- Hc in Heq.
        assert (handle_eqb (growAnimationRef w) (growAnimationRef w) = true)
          by (apply handle_eqb_eq; reflexivity).
        congruence.
Qed.

Lemma release_pending_run inputs :
  forall w, release_pending w -> release_pending (run inputs w).
Proof.
  induction inputs as [| i rest IH]; intros w Hw; cbn [run]; [exact Hw |].
  apply IH, release_pending_exec, Hw.
Qed.

(** X5. A released press ends. In every state of a run in which the phase
    is INACTIVE and [pressed] is still true, a release wait on the current
    animation is pending; once it is due, its firing sets [pressed] to
    false; and it is due within 225 ms when the host has reported no
    negative current time. *)
Theorem released_press_ends :
  forall browser surface sx sy inputs,
    let w := run inputs (mount browser surface sx sy) in
    stateRef w = INACTIVE -> pressed w = true ->
    exists n due,
      nth_error (timers w) n = Some (due, AfterMinimumPress (growAnimationRef w))
      /\ (readings_nonnegative inputs -> due <= now w + MINIMUM_PRESS_MS)
      /\ forall dt, due <= now w + Z.max 0 dt ->
                    pressed (run [Tick dt; Fire n] w) = false.
Proof.
  intros browser surface sx sy inputs w Hs Hp.
  assert (Hrp : release_pending w).
  { apply release_pending_run. intros _ H. discriminate. }
  destruct (Hrp Hs Hp) as (due & Hin).
  destruct (In_nth_error _ _ Hin) as (n & Hn).
  exists n, due. split; [exact Hn | split].
  - intros Hpos.
    destruct (on_time_run inputs _ Hpos (on_time_mount browser surface sx sy))
      as (_ & H2 & _).
    exact (H2 due _ Hin).
  - intros dt Hdt. cbn [run exec timers set_now now]. rewrite Hn.
    apply Z.leb_le in Hdt. rewrite Hdt. unfold resume. fields.
    assert (Heq : handle_eqb (growAnimationRef w) (growAnimationRef w) = true)
      by (apply handle_eqb_eq; reflexivity).
    rewrite Heq. reflexivity.
Qed.

Lemma released_press_ends_witness :
  stateRef (run demo_released demo_mount) = INACTIVE
  /\ pressed (run demo_released demo_mount) = true
  /\ exists n due,
       nth_error (timers (run demo_released demo_mount)) n
       = Some (due, AfterMinimumPress (growAnimationRef (run demo_released demo_mount)))
       /\ (readings_nonnegative demo_released ->
           due <= now (run demo_released demo_mount) + MINIMUM_PRESS_MS)
       /\ forall dt, due <= now (run demo_released demo_mount) + Z.max 0 dt ->
                     pressed (run [Tick dt; Fire n] (run demo_released demo_mount)) = false.
Proof.
  split; [vm_compute; reflexivity | split; [vm_compute; reflexivity |]].
  apply (released_press_ends true (Some demo_surface) 0%float 0%float demo_released);
    vm_compute; reflexivity.
Defined.

(** ** Without a surface *)

Lemma endPressAnimation_host w :
  isBrowser (endPressAnimation w) = isBrowser w
  /\ surfaceRef (endPressAnimation w) = surfaceRef w.
Proof.
  unfold endPressAnimation. fields.
  destruct (currentTime _ _) as [t|]; [destruct (MINIMUM_PRESS_MS <=? t) |];
    split; reflexivity.
Qed.

Lemma startPressAnimation_host event w :
  isBrowser (startPressAnimation event w) = isBrowser w
  /\ surfaceRef (startPressAnimation event w) = surfaceRef w.
Proof.
  destruct (startPressAnimation_frame event w) as (_ & _ & _ & _ & _ & Hs & Hb).
  split; assumption.
Qed.

(** Only a layout change touches the surface, and nothing changes whether
    the hook runs in a browser. *)
Lemma exec_host i w :
  isBrowser (exec i w) = isBrowser w
  /\ ((forall s sx sy, i <> Layout s sx sy) -> surfaceRef (exec i w) = surfaceRef w).
Proof.
  assert (Hend : forall x, isBrowser x = isBrowser w -> surfaceRef x = surfaceRef w ->
                           isBrowser (endPressAnimation x) = isBrowser w
                           /\ surfaceRef (endPressAnimation x) = surfaceRef w).
  { intros x Hb Hs. destruct (endPressAnimation_host x) as [-> ->]. split; assumption. }
  assert (Hstart : forall event x, isBrowser x = isBrowser w -> surfaceRef x = surfaceRef w ->
                                   isBrowser (startPressAnimation event x) = isBrowser w
                                   /\ surfaceRef (startPressAnimation event x) = surfaceRef w).
  { intros event x Hb Hs. destruct (startPressAnimation_host event x) as [-> ->].
    split; assumption. }
  assert (Hall : (isBrowser (exec i w) = isBrowser w
                  /\ surfaceRef (exec i w) = surfaceRef w)
                 \/ exists s sx sy, i = Layout s sx sy).
  { destruct i as [d c | dt | n | s sx sy | g t]; cbn [exec];
      [| left; split; reflexivity | | right; eauto | left; split; reflexivity]; left.
    - destruct c as [e | e | e | e | e |]; handlers;
        try (destruct (negb (shouldReactToEvent d w e)); [split; reflexivity |]).
      + split; reflexivity.
      + fields. destruct (negb (StateType_eqb (stateRef w) INACTIVE));
          [apply Hend; reflexivity | split; reflexivity].
      + destruct (negb (isTouch e)); [apply Hstart; reflexivity | split; reflexivity].
      + destruct (StateType_eqb (stateRef w) HOLDING); [split; reflexivity |].
        destruct (StateType_eqb (stateRef w) TOUCH_DELAY); [| split; reflexivity].
        apply Hstart; reflexivity.
      + apply Hend; reflexivity.
      + destruct d; [split; reflexivity |].
        destruct (StateType_eqb (stateRef w) WAITING_FOR_CLICK);
          [apply Hend; reflexivity |].
        destruct (StateType_eqb (stateRef w) INACTIVE); [| split; reflexivity].
        apply Hend; apply Hstart; reflexivity.
    - destruct (nth_error (timers w) n) as [[due k]|]; [| split; reflexivity].
      destruct (due <=? now w); [| split; reflexivity].
      destruct k as [e | c]; unfold resume; fields.
      + destruct (negb (StateType_eqb (stateRef w) TOUCH_DELAY)); [split; reflexivity |].
        apply Hstart; reflexivity.
      + destruct (negb (handle_eqb (growAnimationRef w) c)); split; reflexivity. }
  destruct Hall as [[Hb Hs] | (s & sx & sy & ->)].
  - split; [exact Hb | intros _; exact Hs].
  - split; [reflexivity |]. intros Hne. now elim (Hne s sx sy).
Qed.

Lemma no_surface_exec i w :
  (forall s sx sy, i = Layout s sx sy -> isBrowser w = false \/ s = None) ->
  no_surface w /\ pressed w = false /\ animations w = [] /\ growAnimationRef w = None ->
  no_surface (exec i w) /\ pressed (exec i w) = false
  /\ animations (exec i w) = [] /\ growAnimationRef (exec i w) = None.
Proof.
  intros Hlay (Hno & Hp & Ha & Hg).
  assert (Hno' : no_surface (exec i w)).
  { destruct (exec_host i w) as [Hb Hs]. unfold no_surface. rewrite Hb.
    destruct i as [d c | dt | n | s sx sy | g t];
      try (rewrite Hs by discriminate; exact Hno).
    cbn [exec surfaceRef set_layout].
    destruct (Hlay s sx sy eq_refl) as [H | ->]; [left; exact H | right; reflexivity]. }
  assert (Hstore : growAnimationRef (exec i w) = None /\ animations (exec i w) = []).
  { destruct (exec_store_cases i w)
      as [(Hg' & Ha') | [(event & x & Hgx & Hax & _ & _ & Hbx & Hsx & _ & Hg' & Ha')
                        | (g & t & _ & Hg' & Ha')]].
    - rewrite Hg', Ha'. split; assumption.
    - rewrite Hg', Ha', startPressAnimation_skipped.
      + rewrite Hgx, Hax. split; assumption.
      + rewrite Hbx, Hsx. exact Hno.
    - rewrite Hg', Ha', Ha. split; [exact Hg | destruct g; reflexivity]. }
  destruct Hstore as [Hg' Ha'].
  split; [exact Hno' | split; [| split; assumption]].
  destruct (pressed (exec i w)) eqn:Hp'; [| reflexivity].
  destruct (exec_press_time i w Hp Hp') as (h & a & Hh & _). congruence.
Qed.

(** X6. Without a surface no press is shown. Along a run outside a browser,
    or in which no surface is ever attached, [pressed] stays false and no
    animation is created, whatever events arrive. *)
Theorem press_needs_surface :
  forall browser surface sx sy inputs,
    browser = false
    \/ (surface = None /\ forall s x y, In (Layout s x y) inputs -> s = None) ->
    let w := run inputs (mount browser surface sx sy) in
    pressed w = false /\ animations w = [] /\ growAnimationRef w = None.
Proof.
  intros browser surface sx sy inputs Hno.
  assert (Hgen : forall w0,
             (isBrowser w0 = false
              \/ forall s x y, In (Layout s x y) inputs -> s = None) ->
             no_surface w0 /\ pressed w0 = false /\ animations w0 = []
             /\ growAnimationRef w0 = None ->
             pressed (run inputs w0) = false /\ animations (run inputs w0) = []
             /\ growAnimationRef (run inputs w0) = None).
  { induction inputs as [| i rest IH]; intros w0 Hlay Hinv; cbn [run].
    - destruct Hinv as (_ & H). exact H.
    - apply IH.
      + destruct Hno as [Hb | [Hs Hl]].
        * left. exact Hb.
        * right. split; [exact Hs |]. intros s x y Hin. apply (Hl s x y). right. exact Hin.
      + destruct Hlay as [Hb | Hl].
        * left. rewrite (proj1 (exec_host i w0)). exact Hb.
        * right. intros s x y Hin. apply (Hl s x y). right. exact Hin.
      + apply no_surface_exec; [| exact Hinv].
        intros s x y ->. destruct Hlay as [Hb | Hl]; [left; exact Hb |].
        right. apply (Hl s x y). left. reflexivity. }
  intros w. apply Hgen.
  - destruct Hno as [-> | [_ Hl]]; [left; reflexivity | right; exact Hl].
  - split; [| repeat split].
    destruct Hno as [-> | [-> _]]; [left; reflexivity | right; reflexivity].
Qed.

(** A mouse press on a hook whose surface was never attached: the phase
    advances, nothing is shown. *)
Lemma press_needs_surface_witness :
  stateRef (run [Call false (PointerDown (demo_event "pointerdown" 1 "mouse" 1))]
               (mount true None 0 0)) = WAITING_FOR_CLICK
  /\ pressed (run [Call false (PointerDown (demo_event "pointerdown" 1 "mouse" 1))]
                (mount true None 0 0)) = false.
Proof.
  split; [vm_compute; reflexivity |].
  apply (press_needs_surface true None 0%float 0%float
           [Call false (PointerDown (demo_event "pointerdown" 1 "mouse" 1))]).
  right. split; [reflexivity |].
  intros s x y [H | []]. discriminate.
Defined.

(** ** Hover *)

(** X7. [hovered] follows the admitted hover events and nothing else: an
    admitted [pointerenter] sets it, an admitted [pointerleave] clears it,
    and no other step (press, release, click, timer, layout) changes it. *)
Theorem hover_follows_pointer :
  forall i w,
    (hovered (exec i w) <> hovered w ->
     exists d e, shouldReactToEvent d w e = true
                 /\ ((i = Call d (PointerEnter e) /\ hovered (exec i w) = true)
                     \/ (i = Call d (PointerLeave e) /\ hovered (exec i w) = false)))
    /\ (forall d e, shouldReactToEvent d w e = true ->
                    hovered (exec (Call d (PointerEnter e)) w) = true
                    /\ hovered (exec (Call d (PointerLeave e)) w) = false).
Proof.
  intros i w. split.
  - destruct i as [d c | dt | n | s sx sy | g t]; cbn [exec]; try (intros H; now elim H).
    + destruct c as [e | e | e | e | e |]; handlers;
        try (destruct (shouldReactToEvent d w e) eqn:Hok; cbn [negb];
             [| intros H; now elim H]).
      * intros _. exists d, e. split; [exact Hok |]. left. split; reflexivity.
      * intros _. exists d, e. split; [exact Hok |]. right. split; [reflexivity |].
        fields. destruct (negb (StateType_eqb (stateRef w) INACTIVE)); [| reflexivity].
        apply hovered_endPressAnimation.
      * destruct (negb (isTouch e)); rewrite ?hovered_startPressAnimation; fields;
          intros H; now elim H.
      * destruct (StateType_eqb (stateRef w) HOLDING); [intros H; now elim H |].
        destruct (StateType_eqb (stateRef w) TOUCH_DELAY); [| intros H; now elim H].
        rewrite hovered_startPressAnimation. intros H; now elim H.
      * rewrite hovered_endPressAnimation. intros H; now elim H.
      * destruct d; [intros H; now elim H |].
        destruct (StateType_eqb (stateRef w) WAITING_FOR_CLICK);
          [rewrite hovered_endPressAnimation; intros H; now elim H |].
        destruct (StateType_eqb (stateRef w) INACTIVE); [| intros H; now elim H].
        rewrite hovered_endPressAnimation, hovered_startPressAnimation.
        intros H; now elim H.
    + destruct (nth_error (timers w) n) as [[due k]|]; [| intros H; now elim H].
      destruct (due <=? now w); [| intros H; now elim H].
      destruct k as [e | c]; unfold resume; fields.
      * destruct (negb (StateType_eqb (stateRef w) TOUCH_DELAY));
          rewrite ?hovered_startPressAnimation; fields; intros H; now elim H.
      * destruct (negb (handle_eqb (growAnimationRef w) c)); fields;
          intros H; now elim H.
  - intros d e Hok. cbn [exec]. handlers. rewrite Hok. cbn [negb]. split; [reflexivity |].
    fields. destruct (negb (StateType_eqb (stateRef w) INACTIVE)); [| reflexivity].
    apply hovered_endPressAnimation.
Qed.

Lemma hover_follows_pointer_witness :
  hovered (exec (Call false (PointerEnter (demo_event "pointerenter" 1 "mouse" 0)))
             demo_mount) = true
  /\ hovered (exec (Call false (PointerLeave (demo_event "pointerleave" 1 "mouse" 0)))
                (exec (Call false (PointerEnter (demo_event "pointerenter" 1 "mouse" 0)))
                   demo_mount)) = false.
Proof.
  split.
  - apply (proj2 (hover_follows_pointer (Tick 0) demo_mount)). reflexivity.
  - apply (proj2 (hover_follows_pointer (Tick 0) _)). vm_compute. reflexivity.
Defined.

(** ** The touch delay across presses *)

Lemma endPressAnimation_scroll w :
  scrollX (endPressAnimation w) = scrollX w /\ scrollY (endPressAnimation w) = scrollY w.
Proof.
  unfold endPressAnimation. fields.
  destruct (currentTime _ _) as [t|]; [destruct (MINIMUM_PRESS_MS <=? t) |];
    split; reflexivity.
Qed.

Lemma endPressAnimation_timers_grow w :
  exists more, timers (endPressAnimation w) = timers w ++ more.
Proof.
  destruct (endPressAnimation_outcome w) as [(_ & Htm) | (t & _ & _ & _ & Htm)].
  - exists []. rewrite Htm, app_nil_r. reflexivity.
  - eexists. exact Htm.
Qed.

(** A press started from an event: what the new animation is. *)
Lemma press_from_event down surface x :
  isBrowser x = true -> surfaceRef x = Some surface ->
  stateRef (startPressAnimation (Some down) x) = stateRef x
  /\ rippleStartEventRef (startPressAnimation (Some down) x) = rippleStartEventRef x
  /\ now (startPressAnimation (Some down) x) = now x
  /\ pressed (startPressAnimation (Some down) x) = true
  /\ exists a,
       nth_error (animations (startPressAnimation (Some down) x))
                 (List.length (animations x)) = Some a
       /\ anim_created a = now x
       /\ kf_translateStart (anim_keyframes a)
          = {| pt_x := (pageX down - (scrollX x + rect_left surface)
                        - initialSize (rippleSize surface) / 2)%float;
               pt_y := (pageY down - (scrollY x + rect_top surface)
                        - initialSize (rippleSize surface) / 2)%float |}.
Proof.
  intros Hb Hs.
  destruct (startPressAnimation_effect (Some down) x surface Hb Hs)
    as (Hp & _ & _ & Hnew & _).
  split; [apply stateRef_startPressAnimation |].
  split; [apply origin_startPressAnimation |].
  split; [apply now_startPressAnimation |].
  split; [exact Hp |].
  exists (pressAnimation (Some down) surface x).
  split; [exact Hnew | split; [reflexivity |]].
  unfold pressAnimation, getTranslationCoordinates, getNormalizedPointerEventCoords.
  fields. rewrite Hb. reflexivity.
Qed.

(** X8. The touch delay is not tied to its press. The continuation of the
    150 ms delay only checks that the phase is TOUCH_DELAY. After a touch
    went down and was cancelled within its delay, and a second touch went
    down, the first touch's delay, when it completes (150 ms after the
    first [pointerdown], before the second touch's own delay is due), puts
    the phase in HOLDING and starts the press of the second touch from the
    coordinates of the first [pointerdown]. *)
Theorem touch_delay_is_not_per_press :
  forall w d1 c d2 dt1 dt2 dt3 surface,
    isBrowser w = true -> surfaceRef w = Some surface ->
    shouldReactToEvent false w d1 = true -> pointerType d1 = "touch"%string ->
    0 <= dt1 -> 0 <= dt2 -> 0 <= dt3 ->
    TOUCH_DELAY_MS <= dt1 + dt2 + dt3 -> dt3 < TOUCH_DELAY_MS ->
    let w1 := exec (Tick dt1) (onPointerDown false d1 w) in
    let w2 := exec (Tick dt2) (onPointerCancel false c w1) in
    let w3 := exec (Tick dt3) (onPointerDown false d2 w2) in
    shouldReactToEvent false w1 c = true ->
    shouldReactToEvent false w2 d2 = true -> pointerType d2 = "touch"%string ->
    let w4 := exec (Fire (List.length (timers w))) w3 in
    stateRef w3 = TOUCH_DELAY
    /\ rippleStartEventRef w3 = Some d2
    /\ stateRef w4 = HOLDING
    /\ rippleStartEventRef w4 = Some d2
    /\ pressed w4 = true
    /\ now w4 < now w + dt1 + dt2 + TOUCH_DELAY_MS
    /\ exists a,
         nth_error (animations w4) (List.length (animations w)) = Some a
         /\ anim_created a = now w + dt1 + dt2 + dt3
         /\ kf_translateStart (anim_keyframes a)
            = {| pt_x := (pageX d1 - (scrollX w + rect_left surface)
                          - initialSize (rippleSize surface) / 2)%float;
                 pt_y := (pageY d1 - (scrollY w + rect_top surface)
                          - initialSize (rippleSize surface) / 2)%float |}.
Proof.
  intros w d1 c d2 dt1 dt2 dt3 surface Hb Hs Hok1 Ht1 H1 H2 H3 Hsum Hlt
         w1 w2 w3 Hokc Hok2 Ht2 w4.
  apply isTouch_true in Ht1. apply isTouch_true in Ht2.
  set (T1 := (now w + TOUCH_DELAY_MS, AfterTouchDelay d1)).
  assert (Hw1 : w1 = set_now (now w + dt1)
                       (set_timers (timers w ++ [T1])
                          (set_stateRef TOUCH_DELAY
                             (set_rippleStartEventRef (Some d1) w)))).
  { unfold w1, onPointerDown. rewrite Hok1, Ht1. cbn [negb exec]. unfold setTimeout.
    fields. rewrite Z.max_r by exact H1. reflexivity. }
  clearbody w1.
  set (r := endPressAnimation w1).
  assert (Hw2 : w2 = set_now (now w1 + dt2) r).
  { unfold w2, onPointerCancel. rewrite Hokc. cbn [negb exec]. fold r.
    unfold r at 1. rewrite now_endPressAnimation. rewrite Z.max_r by exact H2.
    reflexivity. }
  destruct (endPressAnimation_timers_grow w1) as (more & Hmore). fold r in Hmore.
  destruct (endPressAnimation_host w1) as [Hrb Hrs]. fold r in Hrb, Hrs.
  destruct (endPressAnimation_scroll w1) as [Hrx Hry]. fold r in Hrx, Hry.
  pose proof (endPressAnimation_animations w1) as Hra. fold r in Hra.
  clearbody r. clearbody w2.
  assert (Hw3 : stateRef w3 = TOUCH_DELAY /\ rippleStartEventRef w3 = Some d2
                /\ isBrowser w3 = true /\ surfaceRef w3 = Some surface
                /\ scrollX w3 = scrollX w /\ scrollY w3 = scrollY w
                /\ animations w3 = animations w
                /\ now w3 = now w + dt1 + dt2 + dt3
                /\ exists rest, timers w3 = (timers w ++ [T1]) ++ rest).
  { unfold w3, onPointerDown. rewrite Hok2, Ht2. cbn [negb exec]. unfold setTimeout.
    rewrite Hw2. fields. rewrite Hrb, Hrs, Hrx, Hry, Hra, Hmore, Hw1. fields.
    repeat split; try assumption; try reflexivity; try lia.
    eexists. rewrite <- app_assoc. reflexivity. }
  destruct Hw3 as (Hs3 & Ho3 & Hb3 & Hsf3 & Hx3 & Hy3 & Ha3 & Hn3 & rest & Htm3).
  clearbody w3.
  assert (Hfire : w4 = startPressAnimation (Some d1)
                         (set_stateRef HOLDING
                            (set_timers (remove_nth (List.length (timers w)) (timers w3))
                                        w3))).
  { assert (Hn : nth_error (timers w3) (List.length (timers w)) = Some T1).
    { rewrite Htm3. rewrite nth_error_app1 by (rewrite length_app; cbn; lia).
      apply nth_error_last. }
    unfold w4. cbn [exec]. rewrite Hn. unfold T1.
    replace (now w + TOUCH_DELAY_MS <=? now w3) with true
      by (symmetry; apply Z.leb_le; unfold TOUCH_DELAY_MS in *; lia).
    unfold resume. fields. rewrite Hs3. reflexivity. }
  clearbody w4.
  destruct (press_from_event d1 surface
              (set_stateRef HOLDING
                 (set_timers (remove_nth (List.length (timers w)) (timers w3)) w3)))
    as (Hst & Hor & Hnow & Hpr & a & Ha & Hcr & Hkf); [exact Hb3 | exact Hsf3 |].
  rewrite <- Hfire in Hst, Hor, Hnow, Hpr, Ha.
  fields_in Hst. fields_in Hor. fields_in Hnow. fields_in Hcr. fields_in Hkf.
  fields_in Ha. rewrite Ha3 in Ha. rewrite Hx3, Hy3 in Hkf.
  split; [exact Hs3 | split; [exact Ho3 |]].
  split; [exact Hst |].
  split; [congruence |].
  split; [exact Hpr |].
  split; [rewrite Hnow, Hn3; lia |].
  exists a. split; [exact Ha | split; [congruence | exact Hkf]].
Qed.

Lemma touch_delay_is_not_per_press_witness :
  stateRef (exec (Fire 0)
              (exec (Tick 50)
                 (onPointerDown false demo_second_touch
                    (exec (Tick 50)
                       (onPointerCancel false (demo_event "pointercancel" 1 "touch" 0)
                          (exec (Tick 50)
                             (onPointerDown false demo_touch_down demo_mount)))))))
  = HOLDING
  /\ pressed (exec (Fire 0)
                (exec (Tick 50)
                   (onPointerDown false demo_second_touch
                      (exec (Tick 50)
                         (onPointerCancel false (demo_event "pointercancel" 1 "touch" 0)
                            (exec (Tick 50)
                               (onPointerDown false demo_touch_down demo_mount)))))))
     = true.
Proof.
  destruct (touch_delay_is_not_per_press demo_mount demo_touch_down
              (demo_event "pointercancel" 1 "touch" 0) demo_second_touch
              50 50 50 demo_surface)
    as (_ & _ & Hst & _ & Hp & _);
    try (vm_compute; reflexivity); try (vm_compute; discriminate).
  split; [exact Hst | exact Hp].
Defined.

(** ** Sizes from the bounding box *)

Lemma binary_round_aux_not_nan sx P E :
  0 < P -> binary_round_aux prec emax sx P E loc_Exact <> S754_nan.
Proof.
  intros HP. unfold binary_round_aux, shr_fexp.
  set (n := fexp prec emax (Zdigits2 P + E) - E).
  destruct (shr_value P loc_Exact E n) as [Hm1 He1]; [lia |].
  destruct (shr (shr_record_of_loc P loc_Exact) E n) as [r1 e1].
  simpl fst in Hm1. simpl snd in He1.
  pose proof (round_nearest_even_bounds (shr_m r1) (loc_of_shr_record r1)) as Hrnd.
  set (m2 := round_nearest_even (shr_m r1) (loc_of_shr_record r1)) in *.
  set (n2 := fexp prec emax (Zdigits2 m2 + e1) - e1).
  assert (Hpn : 0 < 2 ^ Z.max 0 n) by (apply Z.pow_pos_nonneg; lia).
  assert (Hpn2 : 0 < 2 ^ Z.max 0 n2) by (apply Z.pow_pos_nonneg; lia).
  assert (Hm1' : 0 <= shr_m r1) by (rewrite Hm1; apply Z.div_pos; lia).
  destruct (shr_value m2 loc_Exact e1 n2) as [Hm3 He3]; [lia |].
  destruct (shr (shr_record_of_loc m2 loc_Exact) e1 n2) as [r2 e2].
  simpl fst in Hm3. simpl snd in He3.
  assert (Hm3' : 0 <= shr_m r2) by (rewrite Hm3; apply Z.div_pos; lia).
  destruct (shr_m r2) as [| m | m]; [discriminate | | lia].
  destruct (e2 <=? emax - prec); discriminate.
Qed.

(** A number times the soft-edge ratio is a number. *)
Lemma ratio_not_nan m :
  is_nan m = false -> is_nan (SOFT_EDGE_CONTAINER_RATIO * m)%float = false.
Proof.
  rewrite !is_nan_spec, FloatAxioms.mul_spec.
  change (Prim2SF SOFT_EDGE_CONTAINER_RATIO)
    with (S754_finite false 6305039478318694 (-54)).
  destruct (Prim2SF m) as [s | s | | s mx ex]; intros H; try reflexivity;
    try discriminate.
  unfold SF64mul, SFmul.
  pose proof (binary_round_aux_not_nan (xorb false s)
                (Zpos (6305039478318694 * mx)) (-54 + ex) eq_refl) as Hr.
  destruct (binary_round_aux prec emax (xorb false s)
              (Zpos (6305039478318694 * mx)) (-54 + ex) loc_Exact);
    try reflexivity. contradiction.
Qed.

Lemma max_not_nan a b :
  is_nan a = false -> is_nan b = false -> is_nan (JsMath.max a b) = false.
Proof.
  intros Ha Hb. unfold JsMath.max. rewrite Ha, Hb. cbn [orb].
  destruct (a <? b)%float; [exact Hb |].
  destruct (b <? a)%float; [exact Ha |].
  destruct (get_sign a); assumption.
Qed.

Lemma leb_refl a : is_nan a = false -> (a <=? a)%float = true.
Proof.
  rewrite is_nan_spec, FloatAxioms.leb_spec. unfold SFleb. intros H.
  rewrite SFcompare_refl; [reflexivity |].
  intros Hn. rewrite Hn in H. discriminate.
Qed.

(** [Math.max] of two numbers is at least each of them. *)
Lemma max_ge a b :
  is_nan a = false -> is_nan b = false ->
  (a <=? JsMath.max a b)%float = true /\ (b <=? JsMath.max a b)%float = true.
Proof.
  intros Ha Hb. unfold JsMath.max. rewrite Ha, Hb. cbn [orb].
  pose proof (leb_refl a Ha) as Haa. pose proof (leb_refl b Hb) as Hbb.
  rewrite is_nan_spec in Ha, Hb.
  destruct (a <? b)%float eqn:Hab.
  - split; [| exact Hbb]. rewrite FloatAxioms.ltb_spec in Hab.
    rewrite FloatAxioms.leb_spec. unfold SFltb in Hab. unfold SFleb.
    destruct (SFcompare (Prim2SF a) (Prim2SF b)) as [[| |] |]; try discriminate.
    reflexivity.
  - destruct (b <? a)%float eqn:Hba.
    + split; [exact Haa |]. rewrite FloatAxioms.ltb_spec in Hba.
      rewrite FloatAxioms.leb_spec. unfold SFltb in Hba. unfold SFleb.
      destruct (SFcompare (Prim2SF b) (Prim2SF a)) as [[| |] |]; try discriminate.
      reflexivity.
    + assert (Heq : SFcompare (Prim2SF a) (Prim2SF b) = Some Eq).
      { rewrite FloatAxioms.ltb_spec in Hab, Hba. unfold SFltb in Hab, Hba.
        rewrite (SFcompare_antisym (Prim2SF a) (Prim2SF b)) in Hba.
        destruct (SFcompare (Prim2SF a) (Prim2SF b)) as [[| |] |] eqn:Hc;
          try discriminate; [reflexivity |].
        destruct (Prim2SF a), (Prim2SF b); simpl in Hc; discriminate. }
      assert (Hle : (a <=? b)%float = true /\ (b <=? a)%float = true).
      { rewrite !FloatAxioms.leb_spec. unfold SFleb.
        rewrite (SFcompare_antisym (Prim2SF a) (Prim2SF b)), Heq. split; reflexivity. }
      destruct (get_sign a); tauto.
Qed.

(** X9. The soft edge has a floor. For every bounding box whose width and
    height are numbers, the soft edge [determineRippleSize] adds to the
    radius is a number, at least [SOFT_EDGE_MINIMUM_SIZE] (75) and at least
    [SOFT_EDGE_CONTAINER_RATIO] (0.35) times the larger side. *)
Theorem soft_edge_at_least_minimum :
  forall element,
    is_nan (width element) = false -> is_nan (height element) = false ->
    let s := rippleSize element in
    is_nan (softEdgeSize s) = false
    /\ (SOFT_EDGE_MINIMUM_SIZE <=? softEdgeSize s)%float = true
    /\ (SOFT_EDGE_CONTAINER_RATIO * maxDim s <=? softEdgeSize s)%float = true.
Proof.
  intros element Hw Hh s.
  assert (Hmax : is_nan (maxDim s) = false) by (apply max_not_nan; assumption).
  assert (Hratio : is_nan (SOFT_EDGE_CONTAINER_RATIO * maxDim s)%float = false)
    by (apply ratio_not_nan; exact Hmax).
  assert (Hmin : is_nan SOFT_EDGE_MINIMUM_SIZE = false) by reflexivity.
  change (softEdgeSize s)
    with (JsMath.max (SOFT_EDGE_CONTAINER_RATIO * maxDim s)%float SOFT_EDGE_MINIMUM_SIZE).
  destruct (max_ge _ _ Hratio Hmin) as [H1 H2].
  split; [apply max_not_nan; assumption | split; assumption].
Qed.

Lemma soft_edge_at_least_minimum_witness :
  is_nan (softEdgeSize (rippleSize demo_surface)) = false
  /\ (SOFT_EDGE_MINIMUM_SIZE <=? softEdgeSize (rippleSize demo_surface))%float = true
  /\ (SOFT_EDGE_CONTAINER_RATIO * maxDim (rippleSize demo_surface)
      <=? softEdgeSize (rippleSize demo_surface))%float = true.
Proof. apply (soft_edge_at_least_minimum demo_surface); reflexivity. Defined.

Lemma Zdigits2_bounds m :
  0 < m -> 2 ^ (Zdigits2 m - 1) <= m < 2 ^ Zdigits2 m.
Proof.
  destruct m as [| p | p]; try lia. intros _. apply digits2_pos_bounds.
Qed.

(** The shift that rounding applies leaves a mantissa that is not below 1
    in place. *)
Lemma fexp_shift_le m e :
  0 < m -> 2 ^ (- e) <= m ->
  2 ^ Z.max 0 (fexp prec emax (Zdigits2 m + e) - e) <= m.
Proof.
  intros Hm Hone. destruct (Zdigits2_bounds m Hm) as [Hlo _].
  assert (Hd : 0 < Zdigits2 m) by (destruct m; simpl; lia).
  unfold fexp, SpecFloat.emin, prec, emax.
  set (d := Zdigits2 m) in *.
  destruct (Z.max_spec 0 (Z.max (d + e - 53) (3 - 1024 - 53) - e)) as [[_ ->] | [_ ->]];
    [| simpl; lia].
  destruct (Z.max_spec (d + e - 53) (3 - 1024 - 53)) as [[_ ->] | [_ ->]].
  - apply Z.le_trans with (m := 2 ^ (- e)); [| exact Hone].
    apply Z.pow_le_mono_r; lia.
  - apply Z.le_trans with (m := 2 ^ (d - 1)); [| exact Hlo].
    apply Z.pow_le_mono_r; lia.
Qed.

(** Rounding a positive value that is at least 1 gives a value that is at
    least 1. *)
Lemma binary_round_aux_at_least_one sx P E :
  0 < P -> 2 ^ (- E) <= P ->
  match binary_round_aux prec emax sx P E loc_Exact with
  | S754_infinity s => s = sx
  | S754_finite s m e => s = sx /\ (e < 0 -> 2 ^ (- e) <= Zpos m)
  | _ => False
  end.
Proof.
  intros HP Hone. unfold binary_round_aux, shr_fexp.
  pose proof (fexp_shift_le P E HP Hone) as Hshift.
  set (n := fexp prec emax (Zdigits2 P + E) - E) in *.
  destruct (shr_value P loc_Exact E n) as [Hm1 He1]; [lia |].
  destruct (shr (shr_record_of_loc P loc_Exact) E n) as [r1 e1].
  simpl fst in Hm1. simpl snd in He1.
  pose proof (round_nearest_even_bounds (shr_m r1) (loc_of_shr_record r1)) as Hrnd.
  assert (Hpn : 0 < 2 ^ Z.max 0 n) by (apply Z.pow_pos_nonneg; lia).
  assert (Hm1pos : 1 <= shr_m r1).
  { rewrite Hm1. apply Z.div_le_lower_bound; lia. }
  assert (Hm1one : 2 ^ (- e1) <= shr_m r1).
  { destruct (Z_lt_le_dec (- e1) 0) as [Hneg | Hnn].
    - rewrite Z.pow_neg_r by exact Hneg. lia.
    - rewrite Hm1. apply Z.div_le_lower_bound; [exact Hpn |].
      rewrite <- Z.pow_add_r by lia.
      replace (Z.max 0 n + - e1) with (- E) by lia. exact Hone. }
  set (m2 := round_nearest_even (shr_m r1) (loc_of_shr_record r1)) in *.
  assert (Hm2 : 0 < m2) by lia.
  assert (Hm2one : 2 ^ (- e1) <= m2) by lia.
  pose proof (fexp_shift_le m2 e1 Hm2 Hm2one) as Hshift2.
  set (n2 := fexp prec emax (Zdigits2 m2 + e1) - e1) in *.
  assert (Hpn2 : 0 < 2 ^ Z.max 0 n2) by (apply Z.pow_pos_nonneg; lia).
  destruct (shr_value m2 loc_Exact e1 n2) as [Hm3 He3]; [lia |].
  destruct (shr (shr_record_of_loc m2 loc_Exact) e1 n2) as [r2 e2].
  simpl fst in Hm3. simpl snd in He3.
  assert (Hm3pos : 1 <= shr_m r2).
  { rewrite Hm3. apply Z.div_le_lower_bound; lia. }
  assert (Hm3one : e2 < 0 -> 2 ^ (- e2) <= shr_m r2).
  { intros He2. rewrite Hm3. apply Z.div_le_lower_bound; [exact Hpn2 |].
    rewrite <- Z.pow_add_r by lia.
    replace (Z.max 0 n2 + - e2) with (- e1) by lia. exact Hm2one. }
  destruct (shr_m r2) as [| m | m]; [lia | | lia].
  destruct (e2 <=? emax - prec); [| reflexivity].
  split; [reflexivity | exact Hm3one].
Qed.

(** A number that is at least 1, read off its mantissa and exponent, is at
    least [1.0]. *)
Lemma leb_one v :
  match Prim2SF v with
  | S754_infinity false => True
  | S754_finite false m e => e < 0 -> 2 ^ (- e) <= Zpos m
  | _ => False
  end ->
  (1 <=? v)%float = true.
Proof.
  rewrite FloatAxioms.leb_spec.
  change (Prim2SF 1%float) with (S754_finite false 4503599627370496 (-52)).
  pose proof (Prim2SF_valid v) as Hvalid.
  destruct (Prim2SF v) as [s | s | | s m e]; try contradiction.
  - destruct s; [contradiction |]. intros _. reflexivity.
  - destruct s; [contradiction |]. intros Hone.
    cbn [SpecFloat.valid_binary] in Hvalid. apply bounded_canonical in Hvalid.
    destruct Hvalid as [Hm _].
    unfold SFleb. cbn [SFcompare].
    destruct (-52 ?= e) eqn:Hc.
    + apply Z.compare_eq in Hc. subst e.
      assert (H52 : 2 ^ 52 <= Zpos m) by (apply Hone; lia).
      destruct (Pos.compare_cont Eq 4503599627370496 m) eqn:Hp;
        [reflexivity | reflexivity |].
      exfalso.
      assert (Hgt : (m < 4503599627370496)%positive)
        by (apply Pos.compare_gt_iff; exact Hp).
      assert (Hlt : Zpos m < 4503599627370496) by exact Hgt.
      change (2 ^ 52) with 4503599627370496 in H52. clear - Hlt H52. lia.
    + reflexivity.
    + exfalso. apply Z.compare_gt_iff in Hc.
      assert (Hbig : 2 ^ 53 <= 2 ^ (- e)) by (apply Z.pow_le_mono_r; lia).
      assert (He : e < 0) by lia. specialize (Hone He). lia.
Qed.

(** Every value from 5 on times [INITIAL_ORIGIN_SCALE] rounds to a value
    that is at least 1. *)
Lemma scaled_at_least_one m :
  (5 <=? m)%float = true ->
  match Prim2SF (m * INITIAL_ORIGIN_SCALE)%float with
  | S754_infinity false => True
  | S754_finite false mm e => e < 0 -> 2 ^ (- e) <= Zpos mm
  | _ => False
  end.
Proof.
  rewrite FloatAxioms.leb_spec, FloatAxioms.mul_spec.
  change (Prim2SF 5%float) with (S754_finite false 5629499534213120 (-50)).
  change (Prim2SF INITIAL_ORIGIN_SCALE) with (S754_finite false 7205759403792794 (-55)).
  pose proof (Prim2SF_valid m) as Hvalid.
  destruct (Prim2SF m) as [s | s | | s mx ex]; unfold SFleb; cbn [SFcompare].
  - discriminate.
  - destruct s; [discriminate |]. intros _. exact I.
  - discriminate.
  - destruct s; [discriminate |]. intros Hle.
    cbn [SpecFloat.valid_binary] in Hvalid. unfold bounded, canonical_mantissa in Hvalid.
    apply andb_prop in Hvalid. destruct Hvalid as [Hcan _]. apply Z.eqb_eq in Hcan.
    unfold fexp, SpecFloat.emin, prec, emax in Hcan.
    destruct (digits2_pos_bounds mx) as [Hlo _].
    assert (Hrange : (-50 < ex /\ 2 ^ 52 <= Zpos mx)
                     \/ (ex = -50 /\ 5629499534213120 <= Zpos mx)).
    { destruct (-50 ?= ex) eqn:Hc.
      - apply Z.compare_eq in Hc. right. split; [symmetry; exact Hc |].
        destruct (Pos.compare_cont Eq 5629499534213120 mx) eqn:Hm; try discriminate.
        + apply Pos.compare_eq in Hm. rewrite <- Hm. apply Z.le_refl.
        + apply Z.lt_le_incl. exact Hm.
      - assert (Hex : -50 < ex) by exact Hc. left. split; [exact Hex |].
        replace (Zpos (digits2_pos mx)) with 53 in Hlo by (clear - Hcan Hex; lia).
        exact Hlo.
      - discriminate. }
    clear Hle. unfold SF64mul, SFmul. simpl xorb.
    pose proof (binary_round_aux_at_least_one false
                  (Zpos (mx * 7205759403792794)) (ex + -55)) as Hround.
    set (P := Zpos (mx * 7205759403792794)) in *.
    set (E := ex + -55) in *.
    assert (HP : P = Zpos mx * 7205759403792794) by (unfold P; lia).
    assert (Hpow : 2 ^ (- E) <= 2 ^ 105) by (apply Z.pow_le_mono_r; lia).
    assert (Hbig : 2 ^ 105 <= P \/ (2 ^ (- E) <= 2 ^ 104 /\ 2 ^ 104 <= P)).
    { change (2 ^ 105) with 40564819207303340847894502572032.
      change (2 ^ 104) with 20282409603651670423947251286016.
      change (2 ^ 52) with 4503599627370496 in Hrange.
      destruct Hrange as [[Hex Hmx] | [Hex Hmx]].
      - right. split; [| lia].
        change 20282409603651670423947251286016 with (2 ^ 104).
        apply Z.pow_le_mono_r; lia.
      - left. lia. }
    assert (HP0 : 0 < P) by lia.
    assert (Hone : 2 ^ (- E) <= P) by lia.
    specialize (Hround HP0 Hone).
    destruct (binary_round_aux prec emax false P E loc_Exact) as [s | s | | s mm e];
      try exact Hround.
    + subst s. exact I.
    + destruct Hround as (-> & Hmm). exact Hmm.
Qed.

(** The floor of a number that is at least 1 is at least 1. *)
Lemma floor_at_least_one v :
  match Prim2SF v with
  | S754_infinity false => True
  | S754_finite false m e => e < 0 -> 2 ^ (- e) <= Zpos m
  | _ => False
  end ->
  (1 <=? JsMath.floor v)%float = true.
Proof.
  intros Hv. pose proof (leb_one v Hv) as Hle.
  pose proof (Prim2SF_valid v) as Hvalid.
  unfold JsMath.floor.
  destruct (Prim2SF v) as [s | s | | s m e] eqn:Hp; try contradiction; try exact Hle.
  destruct s; [contradiction |].
  destruct (0 <=? e) eqn:He; [exact Hle |]. apply Z.leb_gt in He.
  specialize (Hv He).
  cbn [SpecFloat.valid_binary] in Hvalid. apply bounded_canonical in Hvalid.
  destruct Hvalid as [Hm _].
  rewrite Z.shiftr_div_pow2 by lia.
  set (q := Zpos m / 2 ^ (- e)).
  assert (Hp2 : 0 < 2 ^ (- e)) by (apply Z.pow_pos_nonneg; lia).
  assert (Hq1 : 1 <= q) by (apply Z.div_le_lower_bound; lia).
  assert (Hq2 : q <= Zpos m) by (apply Z.div_le_upper_bound; nia).
  apply leb_one. rewrite FloatAxioms.of_uint63_spec, Uint63.of_Z_spec.
  rewrite Z.mod_small
    by (change wB with 9223372036854775808;
        change (2 ^ 53) with 9007199254740992 in Hm; lia).
  destruct q as [| qp | qp]; try lia.
  unfold binary_normalize, binary_round, shl_align.
  set (e' := fexp prec emax (Zpos (digits2_pos qp) + 0)).
  assert (He' : e' <= 0).
  { unfold e', fexp, SpecFloat.emin, prec, emax.
    destruct (digits2_pos_bounds qp) as [Hlo _].
    assert (Zpos (digits2_pos qp) <= 53); [| lia].
    destruct (Z_le_gt_dec (Zpos (digits2_pos qp)) 53) as [H | H]; [exact H |].
    assert (2 ^ 53 <= 2 ^ (Zpos (digits2_pos qp) - 1))
      by (apply Z.pow_le_mono_r; lia). lia. }
  destruct (e' - 0) as [| d | d] eqn:Hd; try lia.
  - pose proof (binary_round_aux_at_least_one false (Zpos qp) 0) as Hr.
    specialize (Hr ltac:(lia) ltac:(simpl; lia)).
    destruct (binary_round_aux prec emax false (Zpos qp) 0 loc_Exact) as [s | s | | s mm ee];
      try exact Hr.
    + subst s. exact I.
    + destruct Hr as [-> Hr]. exact Hr.
  - pose proof (binary_round_aux_at_least_one false
                  (Zpos (Pos.iter xO qp d)) e') as Hr.
    assert (Hiter : Zpos (Pos.iter xO qp d) = 2 ^ Zpos d * Zpos qp).
    { pose proof (shift_pos_correct d qp) as Hs. unfold shift_pos in Hs.
      rewrite Hs, Z.pow_pos_fold. reflexivity. }
    assert (Hpd : 0 < 2 ^ Zpos d) by (apply Z.pow_pos_nonneg; lia).
    assert (He'' : - e' = Zpos d) by lia.
    specialize (Hr ltac:(lia) ltac:(rewrite Hiter, He''; nia)).
    destruct (binary_round_aux prec emax false (Zpos (Pos.iter xO qp d)) e' loc_Exact)
      as [s | s | | s mm ee]; try exact Hr.
    + subst s. exact I.
    + destruct Hr as [-> Hr]. exact Hr.
Qed.

Lemma nonnegative_not_nan v : (0 <=? v)%float = true -> is_nan v = false.
Proof.
  intros Hv. rewrite is_nan_spec. rewrite FloatAxioms.leb_spec in Hv.
  destruct (Prim2SF v); try reflexivity.
  change (Prim2SF 0%float) with (S754_zero false) in Hv. discriminate.
Qed.

(** Two numbers are comparable. *)
Lemma ltb_false_leb a b :
  is_nan a = false -> is_nan b = false ->
  (a <? b)%float = false -> (b <=? a)%float = true.
Proof.
  rewrite !is_nan_spec, FloatAxioms.ltb_spec, FloatAxioms.leb_spec.
  unfold SFltb, SFleb. rewrite (SFcompare_antisym (Prim2SF a) (Prim2SF b)).
  intros Ha Hb.
  destruct (SFcompare (Prim2SF a) (Prim2SF b)) as [[| |] |] eqn:Hc; cbn [option_map CompOpp];
    try reflexivity; try discriminate.
  intros _. destruct (Prim2SF a), (Prim2SF b); simpl in Hc; discriminate.
Qed.

(** A number that is at least 1 is not a zero. *)
Lemma leb_one_not_zero v : (1 <=? v)%float = true -> (v =? 0)%float = false.
Proof.
  rewrite FloatAxioms.leb_spec, FloatAxioms.eqb_spec.
  change (Prim2SF 1%float) with (S754_finite false 4503599627370496 (-52)).
  change (Prim2SF 0%float) with (S754_zero false).
  destruct (Prim2SF v) as [s | s | | s m e]; unfold SFleb, SFeqb; cbn [SFcompare];
    try discriminate; intros _; destruct s; reflexivity.
Qed.

(** X10. The initial size is a zero exactly below 5. For every bounding box
    (width and height not negative): when the larger side is below 5 the
    initial size [determineRippleSize] computes is a zero, and otherwise it
    is at least 1, so that the scale is a quotient by zero exactly for the
    boxes whose larger side is below 5. *)
Theorem initial_size_zero_iff :
  forall element,
    (0 <=? width element)%float = true ->
    (0 <=? height element)%float = true ->
    let s := rippleSize element in
    let m := JsMath.max (width element) (height element) in
    ((m <? 5)%float = true -> (initialSize s =? 0)%float = true)
    /\ ((m <? 5)%float = false ->
        (1 <=? initialSize s)%float = true /\ (initialSize s =? 0)%float = false).
Proof.
  intros element Hw Hh s m.
  assert (Hm : m = maxDim s) by apply max_comm.
  assert (Hnan : is_nan m = false)
    by (apply max_not_nan; apply nonnegative_not_nan; assumption).
  assert (Hnn : (0 <=? m)%float = true).
  { unfold m, JsMath.max.
    rewrite (nonnegative_not_nan _ Hw), (nonnegative_not_nan _ Hh). cbn [orb].
    destruct (width element <? height element)%float; [exact Hh |].
    destruct (height element <? width element)%float; [exact Hw |].
    destruct (get_sign (width element)); assumption. }
  change (initialSize s) with (JsMath.floor (maxDim s * INITIAL_ORIGIN_SCALE)%float).
  rewrite <- Hm. split.
  - intros Hlt.
    destruct (floor_of_small _ (scaled_below_one m Hnn Hlt)) as [-> | ->]; reflexivity.
  - intros Hge.
    assert (Hfive : (5 <=? m)%float = true)
      by (apply ltb_false_leb; [exact Hnan | reflexivity | exact Hge]).
    pose proof (floor_at_least_one _ (scaled_at_least_one m Hfive)) as Hone.
    split; [exact Hone | apply leb_one_not_zero; exact Hone].
Qed.

Lemma initial_size_zero_iff_witness :
  (1 <=? initialSize (rippleSize demo_surface))%float = true
  /\ (initialSize (rippleSize {| rect_left := 0; rect_top := 0;
                                 width := 4.5; height := 3 |}) =? 0)%float = true.
Proof.
  split.
  - apply (initial_size_zero_iff demo_surface); reflexivity.
  - apply (initial_size_zero_iff
             {| rect_left := 0; rect_top := 0; width := 4.5; height := 3 |});
      reflexivity.
Defined.
